(** * termo: session bridge, screen classifier, executor and delivery

    A shallow embedding of the parts of the bot that talk to tmux
    ([tmux-bridge.ts]), classify a captured screen ([safe-sender.ts]),
    run one-shot commands ([executor.ts]), keep the session table
    ([session-manager.ts], [storage/sessions.ts]) and cut a screen into
    messages ([commands.ts]).

    A JavaScript string is a sequence of UTF-16 code units; it is modelled
    as [list N].  A function of the source keeps its name; what a call
    reads from its environment (an environment variable, the home
    directory, the file system, the output of a child process) is an
    argument. *)

From Stdlib Require Import ZArith NArith List String Ascii Bool Lia.
From Stdlib Require Import Decimal DecimalZ.
From stdpp Require Import base list gmap sorting.

Local Open Scope N_scope.

(** ** JavaScript strings and arrays *)

Module JS.

Abbreviation jsstring := (list N).

(** A string literal of the source, for Basic Latin text. *)
Definition lit (s : string) : jsstring :=
  map N_of_ascii (list_ascii_of_string s).

(** Code units that the source names. *)
Definition LF : N := 10.
Definition BACKSLASH : N := 92.
Definition DQUOTE : N := 34.
Definition DOLLAR : N := 36.
Definition BACKTICK : N := 96.
Definition BANG : N := 33.
Definition PERCENT : N := 37.
Definition COLON : N := 58.

(** ECMAScript WhiteSpace and LineTerminator code units: what
    [String.prototype.trim] strips and what [\s] matches. *)
Definition isWhiteSpace (c : N) : bool :=
  ((9 <=? c) && (c <=? 13)) || (c =? 32) || (c =? 160) || (c =? 5760)
  || ((8192 <=? c) && (c <=? 8202)) || (c =? 8232) || (c =? 8233)
  || (c =? 8239) || (c =? 8287) || (c =? 12288) || (c =? 65279).

(** LineTerminator: what [.] in a regular expression does not match. *)
Definition isLineTerminator (c : N) : bool :=
  (c =? 10) || (c =? 13) || (c =? 8232) || (c =? 8233).

Fixpoint trimStart (s : jsstring) : jsstring :=
  match s with
  | c :: r => if isWhiteSpace c then trimStart r else s
  | [] => []
  end.

Definition trimEnd (s : jsstring) : jsstring := rev (trimStart (rev s)).

Definition trim (s : jsstring) : jsstring := trimEnd (trimStart s).

(** [s.split(sep)] for a one-unit separator: never the empty array. *)
Fixpoint split (sep : N) (s : jsstring) : list jsstring :=
  match s with
  | [] => [[]]
  | c :: r =>
      if c =? sep then [] :: split sep r
      else match split sep r with
           | h :: t => (c :: h) :: t
           | [] => [[c]]
           end
  end.

(** [a.join(sep)] *)
Fixpoint join (sep : jsstring) (a : list jsstring) : jsstring :=
  match a with
  | [] => []
  | [x] => x
  | x :: r => x ++ sep ++ join sep r
  end.

(** Index normalisation shared by [String.prototype.slice] and
    [Array.prototype.slice]: a negative index counts from the end. *)
Definition clampIndex (len : nat) (i : Z) : nat :=
  if (i <? 0)%Z then Z.to_nat (Z.max (Z.of_nat len + i) 0)
  else Nat.min (Z.to_nat i) len.

(** [x.slice(start)] *)
Definition sliceFrom {A} (start : Z) (x : list A) : list A :=
  drop (clampIndex (length x) start) x.

(** [x.slice(start, end)] *)
Definition slice {A} (start stop : Z) (x : list A) : list A :=
  let from := clampIndex (length x) start in
  let to := clampIndex (length x) stop in
  take (to - from)%nat (drop from x).

Fixpoint startsWith (s pat : jsstring) : bool :=
  match pat, s with
  | [], _ => true
  | p :: pr, c :: r => (c =? p) && startsWith r pr
  | _ :: _, [] => false
  end.

Definition streq (a b : jsstring) : bool := bool_decide (a = b).

(** [s.includes(pat)] *)
Fixpoint includes (s pat : jsstring) : bool :=
  startsWith s pat ||
  match s with
  | [] => false
  | _ :: r => includes r pat
  end.

(** [s.replace(/c/g, r)] for a pattern that is one literal code unit and a
    replacement text without a substitution pattern. *)
Definition replaceAll (c : N) (r : jsstring) (s : jsstring) : jsstring :=
  flat_map (fun x => if x =? c then r else [x]) s.

(** [String.prototype.toLowerCase], code unit by code unit, for Basic
    Latin and Latin-1: A-Z and the capitals U+00C0-U+00DE (but for the
    multiplication sign U+00D7) move up by 32; U+0152 becomes U+0153; the
    Kelvin sign U+212A becomes k and U+0130 becomes i followed by U+0307.
    These are all the units whose lower case holds a unit of a literal that
    the source searches a lower-cased text for (Basic Latin letters, U+00E2,
    U+0153); any other cased letter is mapped by JavaScript to a unit
    outside those literals and is kept as it is here, so that no such
    search is answered differently. *)
Definition lowerUnit (c : N) : jsstring :=
  if (65 <=? c) && (c <=? 90) then [c + 32]
  else if (192 <=? c) && (c <=? 222) && negb (c =? 215) then [c + 32]
  else if c =? 338 then [339]
  else if c =? 8490 then [107]
  else if c =? 304 then [105; 775]
  else [c].

Definition toLowerCase (s : jsstring) : jsstring := flat_map lowerUnit s.

(** Decimal digits of an integer, as in a template literal. *)
Fixpoint digits (d : Decimal.uint) : jsstring :=
  match d with
  | Nil => []
  | D0 d => 48 :: digits d
  | D1 d => 49 :: digits d
  | D2 d => 50 :: digits d
  | D3 d => 51 :: digits d
  | D4 d => 52 :: digits d
  | D5 d => 53 :: digits d
  | D6 d => 54 :: digits d
  | D7 d => 55 :: digits d
  | D8 d => 56 :: digits d
  | D9 d => 57 :: digits d
  end.

Definition numberToString (z : Z) : jsstring :=
  match Z.to_int z with
  | Pos d => digits d
  | Neg d => 45 :: digits d
  end.

(** [a || b] on [string | undefined] with a string default: [undefined]
    and [''] are falsy. *)
Definition orElse (o : option jsstring) (d : jsstring) : jsstring :=
  match o with
  | Some (c :: r) => c :: r
  | _ => d
  end.

End JS.

(** ** The tmux bridge ([tmux-bridge.ts]) *)

Module Tmux.
Import JS.

(** What a bridge operation does before its first suspension point: either
    [sanitizeSessionName] throws and nothing is executed, or one command
    line is handed to [execPromise]. *)
Inductive outcome : Type :=
| Throws (message : jsstring)
| Execs (command : jsstring).

(** The character class [[a-zA-Z0-9_-]]. *)
Definition isNameChar (c : N) : bool :=
  ((97 <=? c) && (c <=? 122)) || ((65 <=? c) && (c <=? 90))
  || ((48 <=? c) && (c <=? 57)) || (c =? 95) || (c =? 45).

(** [/^[a-zA-Z0-9_-]+$/.test(name)] *)
Definition nameRegexTest (name : jsstring) : bool :=
  match name with
  | [] => false
  | _ :: _ => forallb isNameChar name
  end.

Definition isValidSessionName (name : jsstring) : bool :=
  nameRegexTest name && (length name <=? 50)%nat.

Definition invalidNameMessage : jsstring :=
  lit "Session name must only contain letters, numbers, dash, and underscore (max 50 chars)".

Definition sanitizeSessionName (name : jsstring) : jsstring + jsstring :=
  if isValidSessionName name then inr name else inl invalidNameMessage.

(** The escaping chain of [sendToTmux], in the order of the source. *)
Definition escaped (text : jsstring) : jsstring :=
  replaceAll LF [BACKSLASH; 110]
    (replaceAll PERCENT [PERCENT; PERCENT]
       (replaceAll BANG [BACKSLASH; BANG]
          (replaceAll BACKTICK [BACKSLASH; BACKTICK]
             (replaceAll DOLLAR [BACKSLASH; DOLLAR]
                (replaceAll DQUOTE [BACKSLASH; DQUOTE]
                   (replaceAll BACKSLASH [BACKSLASH; BACKSLASH] text)))))).

Section PerUser.
(** [process.env.TMUX_SESSION] *)
Variable env_TMUX_SESSION : option jsstring.

Definition DEFAULT_SESSION : jsstring :=
  orElse env_TMUX_SESSION (lit "termo-main").

(** [sessionName ? sanitizeSessionName(sessionName) : DEFAULT_SESSION] *)
Definition session (sessionName : option jsstring) : jsstring + jsstring :=
  match sessionName with
  | Some (c :: r) => sanitizeSessionName (c :: r)
  | _ => inr DEFAULT_SESSION
  end.

Definition withSession (sessionName : option jsstring)
    (command : jsstring -> jsstring) : outcome :=
  match session sessionName with
  | inl e => Throws e
  | inr s => Execs (command s)
  end.

Definition isTmuxSessionActive (sessionName : option jsstring) : outcome :=
  withSession sessionName
    (fun s => lit "tmux has-session -t " ++ s ++ lit " 2>/dev/null").

Definition createTmuxSession (sessionName : option jsstring) : outcome :=
  withSession sessionName
    (fun s => lit "tmux new-session -d -s " ++ s ++ lit " -x 120 -y 30").

Definition sendToTmux (text : jsstring) (sessionName : option jsstring)
    : outcome :=
  withSession sessionName
    (fun s => lit "tmux send-keys -t " ++ s ++ lit " " ++ [DQUOTE]
              ++ escaped text ++ [DQUOTE]).

Definition sendEnterToTmux (sessionName : option jsstring) : outcome :=
  withSession sessionName
    (fun s => lit "tmux send-keys -t " ++ s ++ lit " Enter").

Definition sendCtrlC (sessionName : option jsstring) : outcome :=
  withSession sessionName
    (fun s => lit "tmux send-keys -t " ++ s ++ lit " C-c").

Definition clearScrollback (sessionName : option jsstring) : outcome :=
  withSession sessionName
    (fun s => lit "tmux clear-history -t " ++ s).

Definition capturePane (sessionName : option jsstring) : outcome :=
  withSession sessionName
    (fun s => lit "tmux capture-pane -t " ++ s ++ lit " -p -S -500").

Definition killTmuxSession (sessionName : option jsstring) : outcome :=
  withSession sessionName
    (fun s => lit "tmux kill-session -t " ++ s).

(** Both names are sanitised, the old one first; neither has a default. *)
Definition renameTmuxSession (oldName newName : jsstring) : outcome :=
  match sanitizeSessionName oldName with
  | inl e => Throws e
  | inr oldSession =>
      match sanitizeSessionName newName with
      | inl e => Throws e
      | inr newSession =>
          Execs (lit "tmux rename-session -t " ++ oldSession
                 ++ lit " " ++ newSession)
      end
  end.
End PerUser.

(** The operations that take one optional session name. *)
Definition unaryOperations (env : option jsstring) (text : jsstring)
    : list (option jsstring -> outcome) :=
  [ isTmuxSessionActive env; createTmuxSession env; sendToTmux env text;
    sendEnterToTmux env; sendCtrlC env; clearScrollback env;
    capturePane env; killTmuxSession env ].

(** The variant of the bridge with one session for the whole process: the
    name is checked once, when the module is loaded. *)
Module Global.
Definition TMUX_SESSION_RAW (env_TMUX_SESSION : option jsstring) : jsstring :=
  orElse env_TMUX_SESSION (lit "termo-main").

(** [None] when loading the module throws. *)
Definition TMUX_SESSION (env_TMUX_SESSION : option jsstring)
    : option jsstring :=
  if nameRegexTest (TMUX_SESSION_RAW env_TMUX_SESSION)
  then Some (TMUX_SESSION_RAW env_TMUX_SESSION) else None.

Definition sendToTmux (TMUX_SESSION : jsstring) (text : jsstring) : outcome :=
  Execs (lit "tmux send-keys -t " ++ TMUX_SESSION ++ lit " " ++ [DQUOTE]
         ++ escaped text ++ [DQUOTE]).
End Global.

(** The pattern of the data model, [^[A-Za-z0-9_-]{1,50}$], read off the
    specification: between one and fifty units, all of the class. *)
Definition matchesSessionPattern (name : jsstring) : bool :=
  (1 <=? length name)%nat && (length name <=? 50)%nat
  && forallb isNameChar name.

(** The escape of one code unit, as the comments of [sendToTmux] list
    them. *)
Definition escapeUnit (c : N) : jsstring :=
  if c =? BACKSLASH then [BACKSLASH; BACKSLASH]
  else if c =? DQUOTE then [BACKSLASH; DQUOTE]
  else if c =? DOLLAR then [BACKSLASH; DOLLAR]
  else if c =? BACKTICK then [BACKSLASH; BACKTICK]
  else if c =? BANG then [BACKSLASH; BANG]
  else if c =? PERCENT then [PERCENT; PERCENT]
  else if c =? LF then [BACKSLASH; 110]
  else [c].

End Tmux.


(** ** The screen classifier ([safe-sender.ts]) *)

Module Classifier.
Import JS.

(** The character class of [hasSpinner], unit for unit as it stands in the
    file: U+00E2 U+2014 U+2039, U+00E2 U+2014, U+00E2 U+2014 U+201C and
    U+00E2 U+2014 U+2018.  A class matches any one of its units. *)
Definition SPINNER : jsstring :=
  [226; 8212; 8249; 226; 8212; 226; 8212; 8220; 226; 8212; 8216].

(** The literal that [isDone] searches for, U+00E2 U+0153 U+201C, and the
    one in front of [' thinking'], U+00E2 U+0153 U+00A6, as they stand in
    the file. *)
Definition CHECK_MARK : jsstring := [226; 339; 8220].
Definition STAR : jsstring := [226; 339; 166].

Definition ESC_TO_INTERRUPT : jsstring := lit "esc to interrupt".

Record ClaudeStatus : Type := {
  isThinking : bool;
  isReady : bool;
  isDone : bool;
  status : jsstring
}.

(** [lines.slice(-10)] *)
Definition lastTen (screen : jsstring) : list jsstring :=
  sliceFrom (-10) (split LF screen).

Definition lastTenLines (screen : jsstring) : jsstring :=
  join [LF] (lastTen screen).

Definition lastTenLower (screen : jsstring) : jsstring :=
  toLowerCase (lastTenLines screen).

Definition isSpinner (c : N) : bool := existsb (N.eqb c) SPINNER.

Definition hasSpinner (screen : jsstring) : bool :=
  existsb isSpinner (lastTenLines screen).

Definition hasThinkingText (screen : jsstring) : bool :=
  includes (lastTenLower screen) (lit "thinking")
  || includes (lastTenLower screen) (STAR ++ lit " thinking")
  || includes (lastTenLines screen) ESC_TO_INTERRUPT.

Definition isPromptLine (line : jsstring) : bool :=
  let trimmed := trim line in
  streq trimmed (lit ">") || startsWith trimmed (lit "> ").

Definition hasPrompt (screen : jsstring) : bool :=
  existsb isPromptLine (lastTen screen).

Definition parseClaudeStatus (screen : jsstring) : ClaudeStatus :=
  let isThinking := hasSpinner screen || hasThinkingText screen in
  let isReady := hasPrompt screen && negb isThinking in
  let isDone :=
    includes (lastTenLower screen) CHECK_MARK
    || (includes (lastTenLower screen) (lit "done")
        && negb (includes (lastTenLower screen) (lit "undo"))) in
  let status :=
    if isThinking then lit "thinking"
    else if isReady then lit "ready"
    else if isDone then lit "done"
    else lit "unknown" in
  {| isThinking := isThinking; isReady := isReady; isDone := isDone;
     status := status |}.

(** The last line of a window that is not blank, if there is one. *)
Definition lastNonBlank (window : list jsstring) : option jsstring :=
  find (fun l => negb (streq (trim l) [])) (rev window).

(** [s] holds [pat] as a contiguous run of code units. *)
Definition Occurs (pat s : jsstring) : Prop :=
  exists pre post, s = pre ++ pat ++ post.

End Classifier.

(** ** Cutting a screen into messages ([commands.ts]) *)

Module Delivery.
Import JS.








End Delivery.

(** ** The session table ([session-manager.ts], [storage/sessions.ts]) *)

Module Sessions.
Import JS.

Record TerminalSession : Type := {
  name : jsstring;
  userId : Z;
  cwd : jsstring;
  outputBuffer : jsstring;
  isRunning : bool
}.

Definition sessionKey (userId : Z) (name : jsstring) : jsstring :=
  numberToString userId ++ [COLON] ++ name.

(** The module's [activeSessions] map together with the [sessions] table of
    the database, whose rows are unique in [(user_id, name)]; of a row only
    the [cwd] column is kept. *)
Record state : Type := {
  activeSessions : gmap (list N) TerminalSession;
  sessionsTable : gmap (Z * list N) (list N)
}.

(** [INSERT ... ON CONFLICT(user_id, name) DO UPDATE SET cwd = excluded.cwd] *)
Definition saveSession (userId : Z) (name cwd : jsstring)
    (table : gmap (Z * list N) (list N)) : gmap (Z * list N) (list N) :=
  <[(userId, name) := cwd]> table.

Definition alreadyExists (name : jsstring) : jsstring :=
  lit "Session '" ++ name ++ lit "' already exists".

Section CreateSession.
(** [os.homedir()] *)
Variable homedir : jsstring.

(** The result is the exception thrown or the session returned, with the
    state the call leaves behind. *)
Definition createSession (userId : Z) (name : jsstring)
    (cwd : option jsstring) (st : state)
    : (jsstring + TerminalSession) * state :=
  let key := sessionKey userId name in
  match activeSessions st !! key with
  | Some _ => (inl (alreadyExists name), st)
  | None =>
      let sessionCwd := orElse cwd homedir in
      let session :=
        {| name := name; userId := userId; cwd := sessionCwd;
           outputBuffer := []; isRunning := false |} in
      (inr session,
       {| activeSessions := <[key := session]> (activeSessions st);
          sessionsTable := saveSession userId name sessionCwd (sessionsTable st) |})
  end.
End CreateSession.

End Sessions.


(** ** The command executor ([executor.ts]) *)

Module Executor.
Import JS.

Record ExecuteOptions : Type := {
  shell : jsstring;
  timeout : Z;
  maxOutput : Z
}.

Record ExecutionResult : Type := {
  output : jsstring;
  exitCode : Z;
  duration : Z;
  truncated : bool;
  newCwd : option jsstring
}.

(** [command.match(/^\s*cd\s+(.+?)\s*$/)] is not null: after leading white
    space comes [cd], at least one white-space unit, and then a non-empty
    run without a line terminator followed only by white space.  When the
    rest holds a unit that is not white space, that run has to cover the
    trimmed rest; otherwise it is some single unit after the first one. *)
Definition cdMatch (command : jsstring) : bool :=
  match trimStart command with
  | 99 :: 100 :: w :: r =>
      isWhiteSpace w &&
      match trim (w :: r) with
      | [] => existsb (fun c => negb (isLineTerminator c)) r
      | core => forallb (fun c => negb (isLineTerminator c)) core
      end
  | _ => false
  end.

Definition wrappedCommand (command : jsstring) : jsstring :=
  if cdMatch command then command ++ lit " && pwd" else command.

(** The body shared by the two ['data'] handlers: append, then cut back to
    the last [maxOutput] units once the buffer is longer than twice that. *)
Definition collect (maxOutput : Z) (buffer text : jsstring) : jsstring :=
  let buffer' := buffer ++ text in
  if (maxOutput * 2 <? Z.of_nat (length buffer'))%Z
  then sliceFrom (- maxOutput) buffer'
  else buffer'.

Inductive data : Type :=
| Stdout (text : jsstring)
| Stderr (text : jsstring).

(** The closure variables [(stdout, stderr)] after one ['data'] event. *)
Definition onData (maxOutput : Z) (buffers : jsstring * jsstring) (d : data)
    : jsstring * jsstring :=
  match d with
  | Stdout text => (collect maxOutput (fst buffers) text, snd buffers)
  | Stderr text => (fst buffers, collect maxOutput (snd buffers) text)
  end.

Definition buffersAfter (maxOutput : Z) (events : list data)
    : jsstring * jsstring :=
  fold_left (onData maxOutput) events ([], []).

Section Handlers.
(** [fs.existsSync] *)
Variable existsSync : jsstring -> bool.
Variable options : ExecuteOptions.
(** The outcome of the [cdMatch] test of this call. *)
Variable cdMatched : bool.

(** The value the ['close'] handler resolves the promise to, when it is not
    yet resolved; [closeCode] is [None] when the child was ended by a
    signal.  The handler also writes a new directory to the session
    ([updateCwd]); that write is not part of the value. *)
Definition onClose (stdout stderr : jsstring) (closeCode : option Z)
    (elapsed : Z) : ExecutionResult :=
  let combined :=
    stdout ++ match stderr with [] => [] | _ :: _ => LF :: stderr end in
  let truncated := (maxOutput options <? Z.of_nat (length combined))%Z in
  let cut := sliceFrom (- maxOutput options) combined in
  let code := match closeCode with Some c => c | None => 1%Z end in
  let plain :=
    {| output := cut; exitCode := code; duration := elapsed;
       truncated := truncated; newCwd := None |} in
  if cdMatched && bool_decide (closeCode = Some 0%Z) then
    let lines := split LF (trim cut) in
    let lastLine := trim (List.last lines []) in
    match lastLine with
    | _ :: _ =>
        if existsSync lastLine then
          {| output := join [LF] (slice 0 (-1) lines); exitCode := code;
             duration := elapsed; truncated := truncated;
             newCwd := Some lastLine |}
        else plain
    | [] => plain
    end
  else plain.

(** The ['error'] handler. *)
Definition onError (message : jsstring) (elapsed : Z) : ExecutionResult :=
  {| output := lit "Error: " ++ message; exitCode := 1%Z;
     duration := elapsed; truncated := false; newCwd := None |}.

(** The timeout callback; [Math.round(duration / 1000)] on whole
    milliseconds is [(duration + 500) / 1000] rounded down. *)
Definition onTimeout (stdout : jsstring) (elapsed : Z) : ExecutionResult :=
  {| output := sliceFrom (- maxOutput options) stdout ++ [LF; LF]
               ++ lit "[Command timed out after "
               ++ numberToString ((elapsed + 500) / 1000)%Z ++ lit "s]";
     exitCode := 124%Z; duration := elapsed; truncated := true;
     newCwd := None |}.
End Handlers.

(** How a child process ends, as seen by the promise. *)
Inductive ending : Type :=
| Closes (closeCode : option Z)
| Fails (message : jsstring)
| TimesOut.

(** The value [runCommand] resolves to for a child that emits [events] and
    then ends. *)
Definition runCommand (existsSync : jsstring -> bool)
    (options : ExecuteOptions) (command : jsstring)
    (events : list data) (e : ending) (elapsed : Z) : ExecutionResult :=
  let '(stdout, stderr) := buffersAfter (maxOutput options) events in
  match e with
  | Closes closeCode =>
      onClose existsSync options (cdMatch command) stdout stderr closeCode elapsed
  | Fails message => onError message elapsed
  | TimesOut => onTimeout options stdout elapsed
  end.

(** Everything the child wrote to its standard output. *)
Definition written (events : list data) : jsstring :=
  flat_map (fun d => match d with Stdout t => t | Stderr _ => [] end) events.

(** *** The table of running processes *)

Inductive signal : Type := SIGTERM | SIGKILL.

(** The executor object and the part of the world it acts on.  A child
    process is named by the order in which [spawn] created it;
    [closeEmitted] lists the children whose ['close'] event has been
    emitted, which Node does once the process has ended and its streams are
    closed. *)
Record world : Type := {
  runningProcesses : gmap (list N) nat;
  sessionIsRunning : gmap (list N) bool;
  spawned : list (nat * list N);
  closeEmitted : list nat;
  resolved : list nat;
  signals : list (nat * signal);
  killTimers : list nat
}.

Definition initial : world :=
  {| runningProcesses := ∅; sessionIsRunning := ∅; spawned := [];
     closeEmitted := []; resolved := []; signals := []; killTimers := [] |}.

Definition mem (p : nat) (l : list nat) : bool := existsb (Nat.eqb p) l.

(** [abort(session)] *)
Definition abort (key : jsstring) (w : world) : bool * world :=
  match runningProcesses w !! key with
  | Some proc =>
      (true,
       {| runningProcesses := delete key (runningProcesses w);
          sessionIsRunning := <[key := false]> (sessionIsRunning w);
          spawned := spawned w; closeEmitted := closeEmitted w; resolved := resolved w;
          signals := signals w ++ [(proc, SIGTERM)];
          killTimers := killTimers w ++ [proc] |})
  | None => (false, w)
  end.

(** [spawn] followed by [this.runningProcesses.set(sessionKey, proc)]. *)
Definition register (key : jsstring) (w : world) : world :=
  let proc := length (spawned w) in
  {| runningProcesses := <[key := proc]> (runningProcesses w);
     sessionIsRunning := <[key := true]> (sessionIsRunning w);
     spawned := spawned w ++ [(proc, key)]; closeEmitted := closeEmitted w;
     resolved := resolved w; signals := signals w;
     killTimers := killTimers w |}.

(** The synchronous part of [runCommand]: abort, then spawn and register. *)
Definition startCommand (key : jsstring) (w : world) : world :=
  register key (snd (abort key w)).

Definition keyOf (proc : nat) (w : world) : option (list N) :=
  snd <$> find (fun e => Nat.eqb (fst e) proc) (spawned w).

(** What the ['close'], ['error'] and timeout callbacks of the call that
    spawned [proc] do to the table once they pass the [resolved] guard. *)
Definition settle (proc : nat) (key : list N) (w : world) : world :=
  {| runningProcesses := delete key (runningProcesses w);
     sessionIsRunning := <[key := false]> (sessionIsRunning w);
     spawned := spawned w; closeEmitted := closeEmitted w;
     resolved := resolved w ++ [proc]; signals := signals w;
     killTimers := killTimers w |}.

Definition markClosed (proc : nat) (w : world) : world :=
  {| runningProcesses := runningProcesses w;
     sessionIsRunning := sessionIsRunning w; spawned := spawned w;
     closeEmitted := closeEmitted w ++ [proc]; resolved := resolved w;
     signals := signals w; killTimers := killTimers w |}.

Definition sendSignal (proc : nat) (s : signal) (w : world) : world :=
  {| runningProcesses := runningProcesses w;
     sessionIsRunning := sessionIsRunning w; spawned := spawned w;
     closeEmitted := closeEmitted w; resolved := resolved w;
     signals := signals w ++ [(proc, s)]; killTimers := killTimers w |}.

Definition clearTimer (proc : nat) (w : world) : world :=
  {| runningProcesses := runningProcesses w;
     sessionIsRunning := sessionIsRunning w; spawned := spawned w;
     closeEmitted := closeEmitted w; resolved := resolved w; signals := signals w;
     killTimers := List.filter (fun p => negb (Nat.eqb p proc)) (killTimers w) |}.

(** [abortAll()]: SIGTERM to every child in the table, in the order of the
    table, then [clear()]; no kill timer is set and no session is marked.
    An entry is only ever written by [runCommand], right after [abort] has
    deleted the key, so it goes to the end of the [Map]: the order of the
    table is the order in which the children were spawned. *)
Definition abortAll (w : world) : world :=
  {| runningProcesses := ∅;
     sessionIsRunning := sessionIsRunning w; spawned := spawned w;
     closeEmitted := closeEmitted w; resolved := resolved w;
     signals :=
       signals w
       ++ map (fun proc => (proc, SIGTERM))
            (merge_sort Nat.le (snd <$> map_to_list (runningProcesses w)));
     killTimers := killTimers w |}.

(** What can happen to the executor: a call of [runCommand], of
    [abort(session)] or of [abortAll()] by the bot, and the events and
    timers of the children. *)
Inductive event : Type :=
| Start (key : list N)
| ProcClose (proc : nat)
| ProcError (proc : nat)
| TimeoutFires (proc : nat)
| KillTimerFires (proc : nat)
| Abort (key : list N)
| AbortAll.

Definition step (w : world) (e : event) : world :=
  match e with
  | Start key => startCommand key w
  | Abort key => snd (abort key w)
  | AbortAll => abortAll w
  | ProcClose proc =>
      let w' := markClosed proc w in
      match keyOf proc w with
      | Some key => if mem proc (resolved w) then w' else settle proc key w'
      | None => w
      end
  | ProcError proc =>
      match keyOf proc w with
      | Some key => if mem proc (resolved w) then w else settle proc key w
      | None => w
      end
  | TimeoutFires proc =>
      match keyOf proc w with
      | Some key =>
          if mem proc (resolved w) || mem proc (closeEmitted w) then w
          else settle proc key (sendSignal proc SIGKILL w)
      | None => w
      end
  | KillTimerFires proc =>
      if mem proc (killTimers w)
      then clearTimer proc (sendSignal proc SIGKILL w) else w
  end.

Definition run (events : list event) : world := fold_left step events initial.

Definition signalled (proc : nat) (w : world) : bool :=
  existsb (fun s => Nat.eqb (fst s) proc) (signals w).

(** The children spawned for [key] whose ['close'] event has not been
    emitted and that were not sent a signal. *)
Definition inFlight (key : list N) (w : world) : list nat :=
  fst <$> List.filter (fun e => bool_decide (snd e = key)
                           && negb (mem (fst e) (closeEmitted w))
                           && negb (signalled (fst e) w)) (spawned w).

End Executor.


(** ** The rest of the session manager ([session-manager.ts],
    [storage/sessions.ts]) *)

Module SessionManager.
Import JS Sessions.

(** A row of the [sessions] table as the session manager reads it: of
    [SessionRecord] it uses [name] and [cwd]. *)
Record SessionRecord : Type := {
  savedName : jsstring;
  savedCwd : jsstring
}.

(** [SELECT * FROM sessions WHERE user_id = ? AND name = ?] *)
Definition getSession (userId : Z) (name : jsstring)
    (table : gmap (Z * list N) (list N)) : option SessionRecord :=
  (fun c => {| savedName := name; savedCwd := c |}) <$> table !! (userId, name).

(** [DELETE FROM sessions WHERE user_id = ? AND name = ?] *)
Definition deleteSession (userId : Z) (name : jsstring)
    (table : gmap (Z * list N) (list N)) : gmap (Z * list N) (list N) :=
  delete (userId, name) table.

(** [UPDATE sessions SET cwd = ? WHERE user_id = ? AND name = ?]: a row that
    is not there is not created. *)
Definition updateSessionCwd (userId : Z) (name cwd : jsstring)
    (table : gmap (Z * list N) (list N)) : gmap (Z * list N) (list N) :=
  alter (fun _ => cwd) (userId, name) table.

Definition getActiveSession (userId : Z) (name : jsstring) (st : state)
    : option TerminalSession :=
  activeSessions st !! sessionKey userId name.

Definition closeSession (userId : Z) (name : jsstring) (st : state)
    : bool * state :=
  match activeSessions st !! sessionKey userId name with
  | None => (false, st)
  | Some _ =>
      (true,
       {| activeSessions := delete (sessionKey userId name) (activeSessions st);
          sessionsTable := deleteSession userId name (sessionsTable st) |})
  end.

(** [session.cwd = newCwd] changes the object the map holds. *)
Definition updateCwd (userId : Z) (name newCwd : jsstring) (st : state)
    : state :=
  match getActiveSession userId name st with
  | Some session =>
      {| activeSessions :=
           <[sessionKey userId name :=
               {| Sessions.name := Sessions.name session;
                  Sessions.userId := Sessions.userId session;
                  cwd := newCwd;
                  outputBuffer := outputBuffer session;
                  isRunning := isRunning session |}]> (activeSessions st);
         sessionsTable := updateSessionCwd userId name newCwd (sessionsTable st) |}
  | None => st
  end.

(** One turn of the loop of [restoreSessionsFromDb]; the accumulator is
    [(restored, state)]. *)
Definition restoreStep (userId : Z) (acc : list TerminalSession * state)
    (saved : SessionRecord) : list TerminalSession * state :=
  let key := sessionKey userId (savedName saved) in
  match activeSessions (snd acc) !! key with
  | Some _ => acc
  | None =>
      let session :=
        {| Sessions.name := savedName saved; Sessions.userId := userId;
           cwd := savedCwd saved; outputBuffer := []; isRunning := false |} in
      (fst acc ++ [session],
       {| activeSessions := <[key := session]> (activeSessions (snd acc));
          sessionsTable := sessionsTable (snd acc) |})
  end.

(** [restoreSessionsFromDb], given the rows that [getAllSessions(userId)]
    returned, in the order in which it returned them. *)
Definition restoreSessionsFromDb (userId : Z)
    (savedSessions : list SessionRecord) (st : state)
    : list TerminalSession * state :=
  fold_left (restoreStep userId) savedSessions ([], st).

(** The rows are rows of [userId] in the table. *)
Definition savedRows (userId : Z) (table : gmap (Z * list N) (list N))
    (rows : list SessionRecord) : Prop :=
  Forall (fun r => table !! (userId, savedName r) = Some (savedCwd r)) rows.

Definition defaultName : jsstring := lit "default".

Section Default.
Variable homedir : jsstring.

Definition getOrCreateDefaultSession (userId : Z) (st : state)
    : (jsstring + TerminalSession) * state :=
  match getActiveSession userId defaultName st with
  | Some session => (inr session, st)
  | None =>
      match getSession userId defaultName (sessionsTable st) with
      | Some saved =>
          let session :=
            {| Sessions.name := defaultName; Sessions.userId := userId;
               cwd := savedCwd saved; outputBuffer := []; isRunning := false |} in
          (inr session,
           {| activeSessions :=
                <[sessionKey userId defaultName := session]> (activeSessions st);
              sessionsTable := sessionsTable st |})
      | None => createSession homedir userId defaultName None st
      end
  end.

(** The calls that change the session state. *)
Inductive call : Type :=
| CreateSession (userId : Z) (name : jsstring) (cwd : option jsstring)
| CloseSession (userId : Z) (name : jsstring)
| UpdateCwd (userId : Z) (name newCwd : jsstring)
| RestoreSessionsFromDb (userId : Z) (savedSessions : list SessionRecord)
| GetOrCreateDefaultSession (userId : Z).

Definition after (c : call) (st : state) : state :=
  match c with
  | CreateSession userId name cwd => snd (createSession homedir userId name cwd st)
  | CloseSession userId name => snd (closeSession userId name st)
  | UpdateCwd userId name newCwd => updateCwd userId name newCwd st
  | RestoreSessionsFromDb userId rows => snd (restoreSessionsFromDb userId rows st)
  | GetOrCreateDefaultSession userId => snd (getOrCreateDefaultSession userId st)
  end.
End Default.

(** What [restoreSessionsFromDb] is handed comes from the table. *)
Definition fromTable (c : call) (st : state) : Prop :=
  match c with
  | RestoreSessionsFromDb userId rows => savedRows userId (sessionsTable st) rows
  | _ => True
  end.

(** The map and the table agree: a session is filed under the key of its own
    user and name, and the table holds its working directory. *)
Definition consistent (st : state) : Prop :=
  forall key s,
    activeSessions st !! key = Some s ->
    key = sessionKey (Sessions.userId s) (Sessions.name s)
    /\ sessionsTable st !! (Sessions.userId s, Sessions.name s)
       = Some (cwd s).

(** [key.startsWith(`${userId}:`)], the test of [listActiveSessions]. *)
Definition isKeyOfUser (userId : Z) (key : jsstring) : bool :=
  startsWith key (numberToString userId ++ [COLON]).

End SessionManager.


(** ** The per-user part of the tmux bridge ([tmux-bridge.ts]) *)

Module TmuxUsers.
Import JS Tmux.

(** [userSessions.get(userId) || null] *)
Definition getUserTmuxSession (userId : Z) (userSessions : gmap Z (list N))
    : option jsstring :=
  match userSessions !! userId with
  | Some (c :: r) => Some (c :: r)
  | _ => None
  end.

(** The exception of [sanitizeSessionName], or the map after [set]. *)
Definition setUserTmuxSession (userId : Z) (sessionName : jsstring)
    (userSessions : gmap Z (list N)) : jsstring + gmap Z (list N) :=
  match sanitizeSessionName sessionName with
  | inl e => inl e
  | inr sanitized => inr (<[userId := sanitized]> userSessions)
  end.

Definition clearUserTmuxSession (userId : Z)
    (userSessions : gmap Z (list N)) : gmap Z (list N) :=
  delete userId userSessions.

(** [userSessions.has(userId)] *)
Definition isUserInTmuxMode (userId : Z) (userSessions : gmap Z (list N))
    : bool :=
  bool_decide (is_Some (userSessions !! userId)).

Definition notAttached : jsstring :=
  lit "User not attached to any tmux session".

Section Wrappers.
Variable env_TMUX_SESSION : option jsstring.
Variable userSessions : gmap Z (list N).

(** The common shape of the user-aware wrappers. *)
Definition forUser (userId : Z) (operation : option jsstring -> outcome)
    : outcome :=
  match getUserTmuxSession userId userSessions with
  | None => Throws notAttached
  | Some session => operation (Some session)
  end.

Definition sendToUserTmux (userId : Z) (text : jsstring) : outcome :=
  forUser userId (sendToTmux env_TMUX_SESSION text).

Definition sendEnterToUserTmux (userId : Z) : outcome :=
  forUser userId (sendEnterToTmux env_TMUX_SESSION).

Definition sendCtrlCToUserTmux (userId : Z) : outcome :=
  forUser userId (sendCtrlC env_TMUX_SESSION).

Definition capturePaneForUser (userId : Z) : outcome :=
  forUser userId (capturePane env_TMUX_SESSION).

Definition clearScrollbackForUser (userId : Z) : outcome :=
  forUser userId (clearScrollback env_TMUX_SESSION).

(** What [capturePaneSinceLast] returns once [tmux capture-pane -p] has
    answered ([None] when the command failed). *)
Definition sinceLast (lastLineCount : Z) (execResult : option jsstring)
    : jsstring * Z :=
  match execResult with
  | None => ([], lastLineCount)
  | Some stdout =>
      let lines := split LF stdout in
      let currentLineCount := Z.of_nat (length lines) in
      if (lastLineCount <? currentLineCount)%Z
      then (trim (join [LF] (sliceFrom lastLineCount lines)), currentLineCount)
      else ([], currentLineCount)
  end.

(** [exec] stands for running a command line: its standard output, or
    [None] when the promise is rejected. *)
Definition capturePaneSinceLast (exec : jsstring -> option jsstring)
    (lastLineCount : Z) (sessionName : option jsstring)
    : jsstring + jsstring * Z :=
  match session env_TMUX_SESSION sessionName with
  | inl e => inl e
  | inr s =>
      inr (sinceLast lastLineCount
             (exec (lit "tmux capture-pane -t " ++ s ++ lit " -p")))
  end.
End Wrappers.

(** Attaching and detaching, as the rest of the bot does it. *)
Inductive call : Type :=
| Attach (userId : Z) (sessionName : jsstring)
| Detach (userId : Z).

(** A rejected [Attach] throws before the map is touched. *)
Definition after (userSessions : gmap Z (list N)) (c : call)
    : gmap Z (list N) :=
  match c with
  | Attach userId sessionName =>
      match setUserTmuxSession userId sessionName userSessions with
      | inl _ => userSessions
      | inr m => m
      end
  | Detach userId => clearUserTmuxSession userId userSessions
  end.

Definition afterAll (calls : list call) : gmap Z (list N) :=
  fold_left after calls ∅.

End TmuxUsers.


(** ** More of the executor ([executor.ts]) *)

Module ExecutorMore.
Import JS Executor.

(** Everything the child wrote to its standard error. *)
Definition writtenErr (events : list data) : jsstring :=
  flat_map (fun d => match d with Stderr t => t | Stdout _ => [] end) events.

Definition notLineTerminator (c : N) : bool := negb (isLineTerminator c).

(** [isRunning(session)]: [this.runningProcesses.has(sessionKey)] *)
Definition isRunning (key : list N) (w : world) : bool :=
  bool_decide (is_Some (runningProcesses w !! key)).

(** What every world reached by the executor satisfies: children are
    numbered by their position in [spawned]; a child the table names was
    spawned for that key, has not emitted ['close'], is not resolved and was
    never sent a signal; a child with a pending kill timer was sent a
    signal; and only spawned children are mentioned anywhere. *)
Record wellFormed (w : world) : Prop := {
  wf_numbered :
    forall i proc key, spawned w !! i = Some (proc, key) -> proc = i;
  wf_registered :
    forall key proc,
      runningProcesses w !! key = Some proc ->
      spawned w !! proc = Some (proc, key)
      /\ mem proc (closeEmitted w) = false
      /\ mem proc (resolved w) = false
      /\ signalled proc w = false;
  wf_timers :
    forall proc, In proc (killTimers w) -> signalled proc w = true;
  wf_bound :
    forall proc,
      mem proc (closeEmitted w) = true \/ mem proc (resolved w) = true
      \/ signalled proc w = true ->
      (proc < length (spawned w))%nat
}.

End ExecutorMore.


(** ** Safe sending ([safe-sender.ts]) and the notifier ([notifier.ts]) *)

Module SafeSender.
Import JS.

Definition MAX_MESSAGE_LENGTH : Z := 3500.

(** A call to the chat API: [ctx.reply] or [bot.api.sendMessage], with the
    caller's [parse_mode] and [reply_markup] passed on or not;
    [bot.api.editMessageText], which always gets both; or the upload of
    [sendAsFile]. *)
Inductive apiCall : Type :=
| Reply (text : jsstring) (parseMode replyMarkup : bool)
| Edit (text : jsstring)
| Document (content filename : jsstring).

Definition truncatedNotice : jsstring :=
  lit "...(truncated, use /full for complete output)..." ++ [LF].

Section Sending.
(** Whether a call to the chat API succeeds. *)
Variable succeeds : apiCall -> bool.

(** [sendSafe]: the calls it makes, in order. *)
Definition sendSafe (text : jsstring) (asFile : bool)
    (filename : option jsstring) : list apiCall :=
  let file := Document text (orElse filename (lit "output.txt")) in
  if asFile || (10000 <? Z.of_nat (length text))%Z then [file]
  else
    let finalText :=
      if (MAX_MESSAGE_LENGTH <? Z.of_nat (length text))%Z
      then truncatedNotice ++ sliceFrom (- MAX_MESSAGE_LENGTH) text
      else text in
    let first := Reply finalText true true in
    if succeeds first then [first]
    else
      let second := Reply (sliceFrom (-2000) finalText) false false in
      if succeeds second then [first; second]
      else [first; second; file].

(** [editSafe]: the calls it makes, and the boolean it returns. *)
Definition editSafe (text : jsstring) : list apiCall * bool :=
  let finalText :=
    if (MAX_MESSAGE_LENGTH <? Z.of_nat (length text))%Z
    then sliceFrom (- MAX_MESSAGE_LENGTH) text ++ [LF] ++ lit "...(truncated)"
    else text in
  if succeeds (Edit finalText) then ([Edit finalText], true)
  else ([Edit finalText; Reply (sliceFrom (-2000) finalText) true false], false).
End Sending.

(** The text a call hands to Telegram as a message. *)
Definition messageText (c : apiCall) : option jsstring :=
  match c with
  | Reply text _ _ => Some text
  | Edit text => Some text
  | Document _ _ => None
  end.

End SafeSender.

Module Notifier.
Import JS.

(** [truncateCommand(command, maxLength = 50)] *)
Definition truncateCommand (command : jsstring) (maxLength : Z) : jsstring :=
  if (Z.of_nat (length command) <=? maxLength)%Z then command
  else slice 0 (maxLength - 3) command ++ lit "...".

End Notifier.


(** ** Formatting for display ([output-handler.ts]) *)

Module OutputHandler.
Import JS.

Definition SLASH : N := 47.
Definition TILDE : jsstring := lit "~".
Definition DOTS : jsstring := lit "...".

(** [s.replace(pat, rep)] with a string pattern and a replacement without
    substitution patterns: the first occurrence only; the empty pattern
    occurs at the start. *)
Fixpoint replaceFirst (pat rep s : jsstring) : jsstring :=
  if startsWith s pat then rep ++ drop (length pat) s
  else match s with
       | [] => []
       | c :: r => c :: replaceFirst pat rep r
       end.

(** The [while] loop of [shortenPath].  [parts.splice(1, 1, '...')] puts
    ['...'] in place of the element at index 1; the loop guard makes sure
    there is one.  [None] stands for a loop that has not ended after [fuel]
    turns. *)
Fixpoint shortenLoop (maxLength : Z) (fuel : nat) (parts : list jsstring)
    (shortened : jsstring) : option jsstring :=
  if (2 <? length parts)%nat && (maxLength <? Z.of_nat (length shortened))%Z
  then
    match fuel with
    | O => None
    | S fuel' =>
        shortenLoop maxLength fuel' (<[1%nat := DOTS]> parts)
          (join [SLASH] (<[1%nat := DOTS]> parts))
    end
  else Some shortened.

Section Home.
(** [process.env.HOME] *)
Variable env_HOME : option jsstring.

Definition home : jsstring := orElse env_HOME [].

Definition shortenPath (path : jsstring) (maxLength : Z) (fuel : nat)
    : option jsstring :=
  let shortened := replaceFirst home TILDE path in
  if (Z.of_nat (length shortened) <=? maxLength)%Z then Some shortened
  else shortenLoop maxLength fuel (split SLASH shortened) shortened.

Definition formatSessionInfo (name cwd : jsstring) (isActive : bool)
    : jsstring :=
  let marker := if isActive then lit " [active]" else [] in
  let displayCwd := replaceFirst home TILDE cwd in
  name ++ marker ++ [LF] ++ lit "   " ++ displayCwd.
End Home.

End OutputHandler.


(** ** Cleaning a captured screen ([commands.ts]) *)

Module Commands.
Import JS.

(** Sixteen box-drawing dashes U+2500, and the return arrow U+21B5. *)
Definition SEPARATOR : jsstring := repeat 9472 16.
Definition ARROW : N := 8629.

(** [line.match(/^>\s*$/)] *)
Definition isEmptyPrompt (line : jsstring) : bool :=
  match line with
  | 62 :: r => forallb isWhiteSpace r
  | _ => false
  end.

Definition endsWith (s suffix : jsstring) : bool :=
  startsWith (rev s) (rev suffix).

(** [line.match(/^>\s+.*↵\s*send$/)]: after [>] comes white space, then a
    run without line terminator, the arrow, white space and [send] at the
    very end.  The arrow is the last unit before the white space in front of
    [send]; the run is what is left between the leading white space and the
    arrow. *)
Definition isSendLine (line : jsstring) : bool :=
  match line with
  | 62 :: w :: r =>
      isWhiteSpace w && endsWith (w :: r) (lit "send") &&
      match rev (trimEnd (take (length (w :: r) - 4) (w :: r))) with
      | a :: revFront =>
          (a =? ARROW)
          && forallb (fun c => negb (isLineTerminator c))
               (trimStart (rev revFront))
      | [] => false
      end
  | _ => false
  end.

(** A line that the loop of [cleanTerminalOutput] skips. *)
Definition isChrome (line : jsstring) : bool :=
  includes line SEPARATOR
  || isEmptyPrompt line
  || includes line (lit "bypass permissions")
  || includes line (lit "Context left until")
  || includes line (lit "shift+tab to cycle")
  || includes line (lit "esc to interrupt")
  || isSendLine line.

Definition isBlank (line : jsstring) : bool := streq (trim line) [].

(** [while (lines.length > 0 && lines[0].trim() === '') lines.shift()] *)
Fixpoint shiftBlank (lines : list jsstring) : list jsstring :=
  match lines with
  | l :: r => if isBlank l then shiftBlank r else lines
  | [] => []
  end.

(** The same from the end, with [pop]. *)
Definition popBlank (lines : list jsstring) : list jsstring :=
  rev (shiftBlank (rev lines)).

Definition cleanedLines (content : jsstring) : list jsstring :=
  popBlank (shiftBlank
    (List.filter (fun l => negb (isChrome l)) (split LF content))).

Definition cleanTerminalOutput (content : jsstring) : jsstring :=
  join [LF] (cleanedLines content).

End Commands.


(** ** Output of a command as chat messages ([output-handler.ts]) *)

Module FormatOutput.
Import JS.

Definition TELEGRAM_MAX_MESSAGE_LENGTH : nat := 4096.
Definition CODE_BLOCK_OVERHEAD : nat := 8.
Definition TRUNCATION_NOTICE_LENGTH : nat := 30.

Definition ESC : N := 27.

(** The classes of [ANSI_REGEX]: [[@-Z\\-_]], [[0-?]], [[ -/]], [[@-~]]. *)
Definition isFe (c : N) : bool :=
  ((64 <=? c) && (c <=? 90)) || ((92 <=? c) && (c <=? 95)).
Definition isParam (c : N) : bool := (48 <=? c) && (c <=? 63).
Definition isInter (c : N) : bool := (32 <=? c) && (c <=? 47).
Definition isFinal (c : N) : bool := (64 <=? c) && (c <=? 126).

(** The strings that [ANSI_REGEX] matches: ESC and a unit of the first
    class; or ESC, an opening bracket, a run of parameter units, a run of
    intermediate units and one final unit. *)
Definition isSequence (q : jsstring) : Prop :=
  (exists c, isFe c = true /\ q = [ESC; c])
  \/ (exists params inter f,
        forallb isParam params = true /\ forallb isInter inter = true
        /\ isFinal f = true /\ q = [ESC; 91] ++ params ++ inter ++ [f]).

(** The length of the longest prefix within a class. *)
Fixpoint spanLen (p : N -> bool) (s : jsstring) : nat :=
  match s with
  | c :: r => if p c then S (spanLen p r) else 0
  | [] => 0
  end.

(** How many units after an ESC the pattern
    [(?:[@-Z\\-_]|\[[0-?]*[ -/]*[@-~])] takes, if it matches there.  The
    three classes of the second alternative are disjoint, so the greedy runs
    are the only way to match. *)
Definition escapeLength (s : jsstring) : option nat :=
  match s with
  | c :: r =>
      if isFe c then Some 1%nat
      else if c =? 91 then
        let np := spanLen isParam r in
        let ni := spanLen isInter (drop np r) in
        match drop ni (drop np r) with
        | f :: _ => if isFinal f then Some (1 + np + ni + 1)%nat else None
        | [] => None
        end
      else None
  | [] => None
  end.

(** [str.replace(ANSI_REGEX, '')]: [skip] units of a match are still to be
    left out. *)
Fixpoint stripFrom (skip : nat) (s : jsstring) : jsstring :=
  match s with
  | [] => []
  | c :: r =>
      match skip with
      | S k => stripFrom k r
      | O =>
          if c =? ESC then
            match escapeLength r with
            | Some k => stripFrom k r
            | None => c :: stripFrom 0 r
            end
          else c :: stripFrom 0 r
      end
  end.

Definition stripAnsi (str : jsstring) : jsstring := stripFrom 0 str.

Definition maxChunkSize : nat :=
  TELEGRAM_MAX_MESSAGE_LENGTH - CODE_BLOCK_OVERHEAD - TRUNCATION_NOTICE_LENGTH.

(** [s.lastIndexOf(c, pos)] for one unit [c]: the greatest index not above
    [pos] that holds [c]; [None] for -1. *)
Fixpoint lastIndexOf (c : N) (pos : nat) (s : jsstring) : option nat :=
  let below := match pos with
               | O => None
               | S p => lastIndexOf c p s
               end in
  match s !! pos with
  | Some x => if x =? c then Some pos else below
  | None => below
  end.

(** The break point of one turn: the last newline up to [maxChunkSize],
    unless there is none or it lies in the first half. *)
Definition breakPoint (remaining : jsstring) : nat :=
  match lastIndexOf LF maxChunkSize remaining with
  | Some i => if (2 * i <? maxChunkSize)%nat then maxChunkSize else i
  | None => maxChunkSize
  end.

(** The [while (remaining.length > 0)] loop; [fuel] bounds the turns. *)
Fixpoint chunkLoop (fuel : nat) (remaining : jsstring) : list jsstring :=
  match fuel, remaining with
  | O, _ => []
  | _, [] => []
  | S fuel', _ :: _ =>
      if (length remaining <=? maxChunkSize)%nat then [remaining]
      else
        take (breakPoint remaining) remaining
        :: chunkLoop fuel' (trimStart (drop (breakPoint remaining) remaining))
  end.

(** Every turn shortens [remaining], so its length is fuel enough. *)
Definition chunksOf (cleaned : jsstring) : list jsstring :=
  chunkLoop (length cleaned) cleaned.

Definition FENCE : jsstring := lit "```".

(** The code block around chunk [index] of [total]. *)
Definition wrapChunk (total index : nat) (chunk : jsstring) : jsstring :=
  let prefix :=
    if (1 <? total)%nat
    then lit "[" ++ numberToString (Z.of_nat index + 1) ++ lit "/"
         ++ numberToString (Z.of_nat total) ++ lit "]" ++ [LF]
    else [] in
  prefix ++ FENCE ++ [LF] ++ chunk ++ [LF] ++ FENCE.

Definition noOutput : jsstring :=
  FENCE ++ [LF] ++ lit "(no output)" ++ [LF] ++ FENCE.

Definition formatOutput (output : jsstring) (truncated : bool)
    : list jsstring :=
  match trim (stripAnsi output) with
  | [] => [noOutput]
  | c :: r =>
      let cleaned :=
        if truncated
        then lit "[...output truncated...]" ++ [LF; LF] ++ c :: r
        else c :: r in
      let chunks := chunksOf cleaned in
      imap (wrapChunk (length chunks)) chunks
  end.

Definition formatError (error : jsstring) : jsstring :=
  FENCE ++ [LF] ++ trim (stripAnsi error) ++ [LF] ++ FENCE.

Definition notWhiteSpace (c : N) : bool := negb (isWhiteSpace c).

End FormatOutput.


(** ** Per-user state of the bot and its hourly sweep ([commands.ts]) *)

Module UserState.
Import JS.

(** The module-level maps, keyed by user id, and the interval timers that
    [clearInterval] was called on. *)
Record maps : Type := {
  userActiveSessions : gmap Z (list N);
  userTmuxMode : gmap Z bool;
  userLastScreen : gmap Z (list N);
  userAutoRefresh : gmap Z nat;
  userLastCommand : gmap Z (list N);
  userLastActivity : gmap Z Z;
  pendingConfirmations : gmap Z (list N);
  clearedTimers : list nat
}.

Definition MAX_INACTIVE_TIME : Z := 60 * 60 * 1000.

(** The body of the [if] in [cleanupStaleUsers]. *)
Definition purge (userId : Z) (m : maps) : maps :=
  {| userActiveSessions := delete userId (userActiveSessions m);
     userTmuxMode := delete userId (userTmuxMode m);
     userLastScreen := delete userId (userLastScreen m);
     userAutoRefresh := delete userId (userAutoRefresh m);
     userLastCommand := delete userId (userLastCommand m);
     userLastActivity := delete userId (userLastActivity m);
     pendingConfirmations := delete userId (pendingConfirmations m);
     clearedTimers :=
       match userAutoRefresh m !! userId with
       | Some timer => clearedTimers m ++ [timer]
       | None => clearedTimers m
       end |}.

Definition sweepStep (now : Z) (m : maps) (entry : Z * Z) : maps :=
  if (MAX_INACTIVE_TIME <? now - snd entry)%Z then purge (fst entry) m else m.

(** [cleanupStaleUsers] at time [now]: one turn for each entry of
    [userLastActivity].  The turns for different users do not touch each
    other's entries, so the order of the entries does not matter for the
    maps. *)
Definition cleanupStaleUsers (now : Z) (m : maps) : maps :=
  fold_left (sweepStep now) (map_to_list (userLastActivity m)) m.

Definition getActiveSessionName (userId : Z) (m : maps) : jsstring :=
  orElse (userActiveSessions m !! userId) (lit "default").

Definition isInTmuxMode (userId : Z) (m : maps) : bool :=
  match userTmuxMode m !! userId with
  | Some b => b
  | None => false
  end.

(** Everything the maps hold for one user. *)
Definition entriesOf (userId : Z) (m : maps) :=
  (userActiveSessions m !! userId, userTmuxMode m !! userId,
   userLastScreen m !! userId, userAutoRefresh m !! userId,
   userLastCommand m !! userId, userLastActivity m !! userId,
   pendingConfirmations m !! userId).

Definition noEntries :
    option (list N) * option bool * option (list N) * option nat
    * option (list N) * option Z * option (list N) :=
  (None, None, None, None, None, None, None).

Definition staleIn (now : Z) (userId : Z) (entries : list (Z * Z)) : bool :=
  existsb (fun e => bool_decide (fst e = userId)
                    && (MAX_INACTIVE_TIME <? now - snd e)%Z) entries.

End UserState.


(** * Properties *)

Import JS.

(** ** Strings *)

Section StringFacts.
Implicit Types s t pat : jsstring.

Lemma startsWith_spec s pat :
  startsWith s pat = true <-> exists post, s = pat ++ post.
Proof.
  revert s; induction pat as [|p pr IH]; intros s; simpl.
  - split; [intros _; now exists s | now destruct s].
  - destruct s as [|c r].
    + split; [discriminate | intros [post H]; discriminate].
    + simpl. rewrite andb_true_iff, N.eqb_eq, IH. split.
      * intros [-> [post ->]]. eauto.
      * intros [post H]. injection H as -> ->. eauto.
Qed.

Lemma includes_spec s pat :
  includes s pat = true <-> exists pre post, s = pre ++ pat ++ post.
Proof.
  induction s as [|c r IH]; cbn [includes].
  - rewrite orb_false_r, startsWith_spec. split.
    + intros [post H]. exists [], post. exact H.
    + intros [pre [post H]]. destruct pre; [eauto | discriminate].
  - rewrite orb_true_iff, startsWith_spec, IH. split.
    + intros [[post H] | [pre [post H]]].
      * exists [], post. exact H.
      * exists (c :: pre), post. now rewrite H.
    + intros [[|x pre] [post H]].
      * left. eauto.
      * right. injection H as _ H. eauto.
Qed.

Lemma replaceAll_app c r s t :
  replaceAll c r (s ++ t) = replaceAll c r s ++ replaceAll c r t.
Proof. apply flat_map_app. Qed.

Lemma trimStart_split (s : jsstring) :
  exists ws,
    s = ws ++ trimStart s /\ forallb isWhiteSpace ws = true
    /\ match trimStart s with
       | c :: _ => isWhiteSpace c = false
       | [] => True
       end.
Proof.
  induction s as [|c r (ws & E & Hws & Hh)]; [now exists []|].
  cbn [trimStart]. destruct (isWhiteSpace c) eqn:Ec.
  - exists (c :: ws). cbn [app forallb]. rewrite Ec, Hws.
    repeat split; [now f_equal | exact Hh].
  - exists []. repeat split. exact Ec.
Qed.

End StringFacts.

(** ** The tmux bridge *)

Section BridgeFacts.
Import Tmux.

Lemma escaped_app (a b : jsstring) : escaped (a ++ b) = escaped a ++ escaped b.
Proof. unfold escaped. now rewrite !replaceAll_app. Qed.

Lemma escaped_unit (c : N) : escaped [c] = escapeUnit c.
Proof.
  unfold escaped, escapeUnit, replaceAll,
    LF, BACKSLASH, DQUOTE, DOLLAR, BACKTICK, BANG, PERCENT.
  cbn [flat_map app].
  destruct (N.eqb_spec c 92) as [->|?]; [reflexivity|].
  cbn [flat_map app].
  destruct (N.eqb_spec c 34) as [->|?]; [reflexivity|].
  cbn [flat_map app].
  destruct (N.eqb_spec c 36) as [->|?]; [reflexivity|].
  cbn [flat_map app].
  destruct (N.eqb_spec c 96) as [->|?]; [reflexivity|].
  cbn [flat_map app].
  destruct (N.eqb_spec c 33) as [->|?]; [reflexivity|].
  cbn [flat_map app].
  destruct (N.eqb_spec c 37) as [->|?]; [reflexivity|].
  cbn [flat_map app].
  destruct (N.eqb_spec c 10) as [->|?]; reflexivity.
Qed.

Lemma escaped_flat_map (text : jsstring) :
  escaped text = flat_map escapeUnit text.
Proof.
  induction text as [|c t IH]; [reflexivity|].
  change (c :: t) with ([c] ++ t).
  rewrite escaped_app, escaped_unit, IH. reflexivity.
Qed.

Lemma matchesSessionPattern_valid (name : jsstring) :
  isValidSessionName name = matchesSessionPattern name.
Proof.
  unfold isValidSessionName, matchesSessionPattern, nameRegexTest.
  destruct name as [|c r]; [reflexivity|].
  cbn [length]. change (1 <=? S (length r))%nat with true.
  cbn [andb]. apply andb_comm.
Qed.

(** The command line of [sendToTmux], in both variants of the bridge: the
    text stands between double quotes with each backslash, double quote,
    dollar sign, backtick and exclamation mark preceded by a backslash, each
    percent sign doubled and each newline written backslash-n. *)
Lemma sendToTmux_command (env : option jsstring) (text : jsstring)
    (sessionName : option jsstring) (s : jsstring) :
  session env sessionName = inr s ->
  sendToTmux env text sessionName
    = Execs (lit "tmux send-keys -t " ++ s ++ lit " " ++ [DQUOTE]
             ++ flat_map escapeUnit text ++ [DQUOTE])
  /\ Global.sendToTmux s text
    = Execs (lit "tmux send-keys -t " ++ s ++ lit " " ++ [DQUOTE]
             ++ flat_map escapeUnit text ++ [DQUOTE]).
Proof.
  intros Hs. unfold sendToTmux, Global.sendToTmux, withSession.
  rewrite Hs, escaped_flat_map. now split.
Qed.

(** C1 fails on these texts. [sendToTmux] does escape each of the seven
    characters, but three of the escapes are not ones that the shell of
    [exec] takes back inside double quotes, where a backslash is removed
    only before a dollar sign, a backtick, a double quote, a backslash and a
    newline.  For the text [hi!] the word between the quotes is [hi\!], for
    [50%] it is [50%%], and for a text of two lines it is one line with the
    two units backslash and n in it; both variants of the bridge build the
    same line.  And the text [Enter] is handed over as the word [Enter], the
    very argument by which [sendEnterToTmux] names the key. *)
Theorem sendToTmux_text_is_not_kept_literal :
  sendToTmux None (lit "hi!") None
  = Execs (lit "tmux send-keys -t termo-main " ++ [DQUOTE] ++ lit "hi\!"
           ++ [DQUOTE])
  /\ Global.sendToTmux (lit "termo-main") (lit "hi!")
     = Execs (lit "tmux send-keys -t termo-main " ++ [DQUOTE] ++ lit "hi\!"
              ++ [DQUOTE])
  /\ sendToTmux None (lit "50%") None
     = Execs (lit "tmux send-keys -t termo-main " ++ [DQUOTE] ++ lit "50%%"
              ++ [DQUOTE])
  /\ sendToTmux None (lit "a" ++ [LF] ++ lit "b") None
     = Execs (lit "tmux send-keys -t termo-main " ++ [DQUOTE] ++ lit "a\nb"
              ++ [DQUOTE])
  /\ sendToTmux None (lit "Enter") None
     = Execs (lit "tmux send-keys -t termo-main " ++ [DQUOTE] ++ lit "Enter"
              ++ [DQUOTE])
  /\ sendEnterToTmux None None
     = Execs (lit "tmux send-keys -t termo-main Enter").
Proof. repeat split. Qed.

(** A non-empty session name handed to an operation is tested against
    [^[A-Za-z0-9_-]{1,50}$] before the command is built: a matching name is
    placed in the command that is executed, and any other name makes the
    operation throw without executing anything.  [renameTmuxSession] treats
    both of its names so. *)
Lemma explicit_session_name_is_validated
    (env : option jsstring) (text name other : jsstring) :
  name <> [] ->
  (matchesSessionPattern name = true ->
     Forall (fun op => exists pre post,
                 op (Some name) = Execs (pre ++ name ++ post))
            (unaryOperations env text)
     /\ (matchesSessionPattern other = true ->
         renameTmuxSession name other
         = Execs (lit "tmux rename-session -t " ++ name ++ lit " " ++ other)))
  /\ (matchesSessionPattern name = false ->
       Forall (fun op => op (Some name) = Throws invalidNameMessage)
              (unaryOperations env text)
       /\ renameTmuxSession name other = Throws invalidNameMessage
       /\ renameTmuxSession other name = Throws invalidNameMessage).
Proof.
  intros Hne. destruct name as [|c r]; [congruence|].
  split; intros Hm.
  - assert (Hs : session env (Some (c :: r)) = inr (c :: r)).
    { cbn [session]. unfold sanitizeSessionName.
      now rewrite matchesSessionPattern_valid, Hm. }
    split.
    + unfold unaryOperations.
      repeat apply List.Forall_cons; try apply List.Forall_nil;
        unfold isTmuxSessionActive, createTmuxSession, sendToTmux,
          sendEnterToTmux, sendCtrlC, clearScrollback, capturePane,
          killTmuxSession, withSession; rewrite Hs.
      * now exists (lit "tmux has-session -t "), (lit " 2>/dev/null").
      * now exists (lit "tmux new-session -d -s "), (lit " -x 120 -y 30").
      * now exists (lit "tmux send-keys -t "),
          (lit " " ++ [DQUOTE] ++ escaped text ++ [DQUOTE]).
      * now exists (lit "tmux send-keys -t "), (lit " Enter").
      * now exists (lit "tmux send-keys -t "), (lit " C-c").
      * exists (lit "tmux clear-history -t "), []. now rewrite app_nil_r.
      * now exists (lit "tmux capture-pane -t "), (lit " -p -S -500").
      * exists (lit "tmux kill-session -t "), []. now rewrite app_nil_r.
    + intros Ho. unfold renameTmuxSession, sanitizeSessionName.
      now rewrite !matchesSessionPattern_valid, Hm, Ho.
  - assert (Hs : session env (Some (c :: r)) = inl invalidNameMessage).
    { cbn [session]. unfold sanitizeSessionName.
      now rewrite matchesSessionPattern_valid, Hm. }
    repeat split.
    + unfold unaryOperations.
      repeat apply List.Forall_cons; try apply List.Forall_nil;
        unfold isTmuxSessionActive, createTmuxSession, sendToTmux,
          sendEnterToTmux, sendCtrlC, clearScrollback, capturePane,
          killTmuxSession, withSession; now rewrite Hs.
    + unfold renameTmuxSession, sanitizeSessionName.
      now rewrite matchesSessionPattern_valid, Hm.
    + unfold renameTmuxSession, sanitizeSessionName.
      rewrite !matchesSessionPattern_valid, Hm.
      now destruct (matchesSessionPattern other).
Qed.

(** An omitted or empty name is not tested: it selects the default
    session. *)
Lemma empty_session_name_selects_default (env : option jsstring) :
  session env None = inr (DEFAULT_SESSION env)
  /\ session env (Some []) = inr (DEFAULT_SESSION env).
Proof. now split. Qed.

(** The one-session bridge checks the class of its name when it is loaded
    (not the length), and refuses to load with a name outside the class. *)
Lemma global_session_length_unchecked :
  matchesSessionPattern (repeat 97 51) = false
  /\ Global.TMUX_SESSION (Some (repeat 97 51)) = Some (repeat 97 51)
  /\ Global.TMUX_SESSION (Some (lit "x;id")) = None.
Proof. repeat split. Qed.

(** C2 fails in the per-user bridge for the default name.  Whatever
    [TMUX_SESSION] holds is taken as [DEFAULT_SESSION] without a test, and
    every operation that is called without a session name builds and
    executes its command with it; the one-session bridge tests the same
    variable when it is loaded and only goes on with a name of the
    class. *)
Theorem default_session_name_is_not_validated (v text : jsstring) :
  v <> [] ->
  DEFAULT_SESSION (Some v) = v
  /\ map (fun op => op None) (unaryOperations (Some v) text)
     = [ Execs (lit "tmux has-session -t " ++ v ++ lit " 2>/dev/null");
         Execs (lit "tmux new-session -d -s " ++ v ++ lit " -x 120 -y 30");
         Execs (lit "tmux send-keys -t " ++ v ++ lit " " ++ [DQUOTE]
                ++ escaped text ++ [DQUOTE]);
         Execs (lit "tmux send-keys -t " ++ v ++ lit " Enter");
         Execs (lit "tmux send-keys -t " ++ v ++ lit " C-c");
         Execs (lit "tmux clear-history -t " ++ v);
         Execs (lit "tmux capture-pane -t " ++ v ++ lit " -p -S -500");
         Execs (lit "tmux kill-session -t " ++ v) ]
  /\ Global.TMUX_SESSION (Some v)
     = (if forallb isNameChar v then Some v else None).
Proof.
  intros Hv. destruct v as [|c r]; [congruence|]. repeat split.
Qed.

Lemma default_session_name_is_not_validated_witness :
  matchesSessionPattern (lit "x;id") = false
  /\ map (fun op => op None) (unaryOperations (Some (lit "x;id")) (lit "ls"))
     = [ Execs (lit "tmux has-session -t x;id 2>/dev/null");
         Execs (lit "tmux new-session -d -s x;id -x 120 -y 30");
         Execs (lit "tmux send-keys -t x;id " ++ [DQUOTE] ++ lit "ls"
                ++ [DQUOTE]);
         Execs (lit "tmux send-keys -t x;id Enter");
         Execs (lit "tmux send-keys -t x;id C-c");
         Execs (lit "tmux clear-history -t x;id");
         Execs (lit "tmux capture-pane -t x;id -p -S -500");
         Execs (lit "tmux kill-session -t x;id") ]
  /\ Global.TMUX_SESSION (Some (lit "x;id")) = None.
Proof.
  split; [reflexivity|].
  assert (Hv : lit "x;id" <> []) by discriminate.
  split.
  - exact (proj1 (proj2 (default_session_name_is_not_validated
                           (lit "x;id") (lit "ls") Hv))).
  - exact (proj2 (proj2 (default_session_name_is_not_validated
                           (lit "x;id") (lit "ls") Hv))).
Defined.

End BridgeFacts.

(** ** The screen classifier *)

Section ClassifierFacts.
Import Classifier.

Lemma hasSpinner_spec (screen : jsstring) :
  hasSpinner screen = true
  <-> exists g, In g SPINNER /\ In g (lastTenLines screen).
Proof.
  unfold hasSpinner, isSpinner. rewrite existsb_exists. split.
  - intros [g [Hin Hg]]. apply existsb_exists in Hg as [k [Hk Heq]].
    apply N.eqb_eq in Heq. subst k. eauto.
  - intros [g [Hs Hin]]. exists g. split; [exact Hin|].
    apply existsb_exists. exists g. split; [exact Hs | apply N.eqb_refl].
Qed.

Lemma includes_false (s pat : jsstring) :
  ~ Occurs pat s -> includes s pat = false.
Proof.
  intros H. destruct (includes s pat) eqn:E; [|reflexivity].
  exfalso. apply H. apply includes_spec. exact E.
Qed.

Lemma Occurs_longer (pre pat s : jsstring) :
  Occurs (pre ++ pat) s -> Occurs pat s.
Proof.
  intros [a [b ->]]. exists (a ++ pre), b. now rewrite <- !app_assoc.
Qed.

Lemma hasThinkingText_false (screen : jsstring) :
  ~ Occurs ESC_TO_INTERRUPT (lastTenLines screen) ->
  ~ Occurs (lit "thinking") (lastTenLower screen) ->
  hasThinkingText screen = false.
Proof.
  intros Hesc Hthink. unfold hasThinkingText.
  rewrite (includes_false _ _ Hthink), (includes_false _ _ Hesc).
  rewrite includes_false; [reflexivity|].
  intros H. apply Hthink.
  apply (Occurs_longer (STAR ++ [32]) (lit "thinking")). exact H.
Qed.

(** C3 fails for every spinner glyph.  The status is picked in the order
    thinking, ready, done, unknown, as the claim says; but the class that
    [hasSpinner] tests holds U+00E2, U+2014, U+2039, U+201C and U+2018, the
    units that the bytes of the four glyphs give when they are read one
    byte at a time, and none of the glyphs U+25CB, U+25D0, U+25D3, U+25D1
    themselves.  So a window with a spinner on its last line is classified
    [unknown], or [done] when an earlier line says so, while a dash between
    two words is taken for a spinner. *)
Theorem spinner_glyph_is_not_recognised :
  (forall screen,
      status (parseClaudeStatus screen)
      = (if isThinking (parseClaudeStatus screen) then lit "thinking"
         else if isReady (parseClaudeStatus screen) then lit "ready"
         else if isDone (parseClaudeStatus screen) then lit "done"
         else lit "unknown"))
  /\ Forall (fun g => isSpinner g = false) [9675; 9680; 9683; 9681]
  /\ (let screen := [9680] ++ lit " Working" in
      isThinking (parseClaudeStatus screen) = false
      /\ status (parseClaudeStatus screen) = lit "unknown")
  /\ (let screen := lit "All done" ++ [LF] ++ [9680] ++ lit " Working" in
      isThinking (parseClaudeStatus screen) = false
      /\ status (parseClaudeStatus screen) = lit "done")
  /\ (let screen := lit "one " ++ [8212] ++ lit " two" in
      isThinking (parseClaudeStatus screen) = true
      /\ status (parseClaudeStatus screen) = lit "thinking").
Proof.
  split; [reflexivity|].
  split; [repeat constructor|].
  vm_compute. repeat split.
Qed.

(** C4, as the code has it by design. When the last non-blank line of the
    trailing ten-line window is exactly [>], the window holds no spinner
    (neither one of the glyphs U+25CB, U+25D0, U+25D3, U+25D1 nor a unit of
    the class as it stands in the source) and no interrupt hint, and its
    lower-cased text does not hold the token [thinking], the classifier
    answers [isReady = true] and [isThinking = false]. *)
Theorem bare_prompt_is_ready (screen : jsstring) :
  lastNonBlank (lastTen screen) = Some (lit ">") ->
  (forall g, In g [9675; 9680; 9683; 9681] -> ~ In g (lastTenLines screen)) ->
  (forall g, In g SPINNER -> ~ In g (lastTenLines screen)) ->
  ~ Occurs ESC_TO_INTERRUPT (lastTenLines screen) ->
  ~ Occurs (lit "thinking") (lastTenLower screen) ->
  isReady (parseClaudeStatus screen) = true
  /\ isThinking (parseClaudeStatus screen) = false.
Proof.
  intros Hlast _ Hspin Hesc Hthink.
  assert (Hs : hasSpinner screen = false).
  { destruct (hasSpinner screen) eqn:E; [|reflexivity].
    apply hasSpinner_spec in E as [g [Hg Hin]]. now destruct (Hspin g). }
  assert (Ht : hasThinkingText screen = false)
    by now apply hasThinkingText_false.
  assert (Hp : hasPrompt screen = true).
  { unfold hasPrompt, lastNonBlank in *.
    apply find_some in Hlast as [Hin _]. apply in_rev in Hin.
    apply existsb_exists. exists (lit ">"). split; [exact Hin | reflexivity]. }
  unfold parseClaudeStatus. cbn [isThinking isReady].
  now rewrite Hs, Ht, Hp.
Qed.

Lemma bare_prompt_is_ready_witness :
  isReady (parseClaudeStatus (lit "All done" ++ [LF] ++ lit ">" ++ [LF])) = true.
Proof.
  refine (proj1 (bare_prompt_is_ready _ _ _ _ _ _)).
  - reflexivity.
  - intros g Hg Hin. vm_compute in Hg, Hin.
    repeat match goal with
           | H : _ \/ _ |- _ => destruct H as [H|H]
           | H : @eq N _ _ |- _ => subst g
           end; try discriminate; try contradiction.
  - intros g Hg Hin. vm_compute in Hg, Hin.
    repeat match goal with
           | H : _ \/ _ |- _ => destruct H as [H|H]
           | H : @eq N _ _ |- _ => subst g
           end; try discriminate; try contradiction.
  - intros H. apply includes_spec in H. discriminate H.
  - intros H. apply includes_spec in H. discriminate H.
Defined.

(** C4, as stated, fails: with the word [Thinking] on the screen the bare
    prompt is not reported as ready although there is neither a spinner nor
    an interrupt hint. *)
Lemma bare_prompt_with_thinking_text_not_ready :
  let screen := lit "Thinking about it" ++ [LF] ++ lit ">" in
  lastNonBlank (lastTen screen) = Some (lit ">")
  /\ hasSpinner screen = false
  /\ existsb (fun g => existsb (N.eqb g) [9675; 9680; 9683; 9681])
       (lastTenLines screen) = false
  /\ includes (lastTenLines screen) ESC_TO_INTERRUPT = false
  /\ isReady (parseClaudeStatus screen) = false
  /\ isThinking (parseClaudeStatus screen) = true.
Proof. vm_compute. repeat split. Qed.

(** C5, as the code has it by design. For a screen whose trailing ten-line
    window holds no check mark (neither the glyph U+2713 nor, in its
    lower-cased text, the three units that stand for it in the source), the
    classifier answers [isDone = true] exactly when the lower-cased text of
    the window holds [done] and holds [undo] nowhere. *)
Theorem isDone_without_check_mark (screen : jsstring) :
  ~ In 10003 (lastTenLines screen) ->
  ~ Occurs CHECK_MARK (lastTenLower screen) ->
  isDone (parseClaudeStatus screen) = true
  <-> Occurs (lit "done") (lastTenLower screen)
      /\ ~ Occurs (lit "undo") (lastTenLower screen).
Proof.
  intros _ Hcheck. unfold parseClaudeStatus. cbn [isDone].
  rewrite (includes_false _ _ Hcheck). cbn [orb].
  rewrite andb_true_iff, negb_true_iff.
  unfold Occurs. rewrite <- !includes_spec.
  destruct (includes (lastTenLower screen) (lit "undo")); intuition congruence.
Qed.

Lemma isDone_without_check_mark_witness :
  isDone (parseClaudeStatus (lit "All DONE" ++ [LF] ++ lit "$ ")) = true.
Proof.
  refine (proj2 (isDone_without_check_mark _ _ _) _).
  - intros Hin. vm_compute in Hin.
    repeat match goal with
           | H : _ \/ _ |- _ => destruct H as [H|H]
           end; try discriminate; try contradiction.
  - intros H. apply includes_spec in H. discriminate H.
  - split.
    + apply includes_spec. reflexivity.
    + intros H. apply includes_spec in H. discriminate H.
Defined.

(** C5, as stated, fails: the window holds no check mark and holds the word
    [done] on its own, after a separate word [undo], and the classifier
    answers [isDone = false]. *)
Lemma done_beside_undo_not_done :
  let screen := lit "undo applied" ++ [LF] ++ lit "done" in
  lastTenLines screen = (lit "undo applied" ++ [LF]) ++ lit "done" ++ []
  /\ existsb (N.eqb 10003) (lastTenLines screen) = false
  /\ includes (lastTenLower screen) CHECK_MARK = false
  /\ isDone (parseClaudeStatus screen) = false.
Proof. vm_compute. repeat split. Qed.

End ClassifierFacts.

(** ** The session table *)

Section SessionFacts.
Import Sessions.

Lemma digits_no_colon (d : Decimal.uint) : ~ In COLON (digits d).
Proof.
  unfold COLON. induction d; cbn [digits]; intros H;
    try (destruct H as [H|H]; [discriminate | tauto]).
  destruct H.
Qed.

Lemma digits_no_minus (d : Decimal.uint) (r : jsstring) : digits d <> 45 :: r.
Proof. destruct d; cbn [digits]; congruence. Qed.

Lemma digits_inj (d e : Decimal.uint) : digits d = digits e -> d = e.
Proof.
  revert e. induction d; intros e H; destruct e; cbn [digits] in H;
    try discriminate; try reflexivity; injection H as H; f_equal; auto.
Qed.

Lemma numberToString_no_colon (z : Z) : ~ In COLON (numberToString z).
Proof.
  unfold numberToString. destruct (Z.to_int z) as [d|d].
  - apply digits_no_colon.
  - intros [H|H]; [discriminate | now apply digits_no_colon in H].
Qed.

Lemma numberToString_inj (y z : Z) :
  numberToString y = numberToString z -> y = z.
Proof.
  unfold numberToString. intros H.
  rewrite <- (DecimalZ.of_to y), <- (DecimalZ.of_to z).
  destruct (Z.to_int y) as [d|d], (Z.to_int z) as [e|e].
  - now rewrite (digits_inj _ _ H).
  - now apply digits_no_minus in H.
  - symmetry in H. now apply digits_no_minus in H.
  - injection H as H. now rewrite (digits_inj _ _ H).
Qed.

Lemma colon_split (a b m n : jsstring) :
  ~ In COLON a -> ~ In COLON b ->
  a ++ [COLON] ++ m = b ++ [COLON] ++ n -> a = b /\ m = n.
Proof.
  revert b. induction a as [|x a IH]; intros [|y b] Ha Hb H; cbn in H.
  - injection H as H. now split.
  - injection H as H _. exfalso. apply Hb. now left.
  - injection H as H _. exfalso. apply Ha. now left.
  - injection H as -> H.
    destruct (IH b) as [-> ->]; auto.
    + intros Hin. apply Ha. now right.
    + intros Hin. apply Hb. now right.
Qed.

(** Two sessions share a key only when they share user and name. *)
Lemma sessionKey_inj (u v : Z) (m n : jsstring) :
  sessionKey u m = sessionKey v n -> u = v /\ m = n.
Proof.
  unfold sessionKey. intros H.
  apply colon_split in H as [H ->]; auto using numberToString_no_colon.
  split; [now apply numberToString_inj | reflexivity].
Qed.

(** C10. [createSession userId name] throws when the active-session map
    already holds the key of [(userId, name)], and then neither the map nor
    the stored table changes; otherwise it returns a session that it adds
    under that key, the map grows by exactly this one entry, the table
    records the same working directory, and without a [cwd] argument that
    directory is the home directory.  The key stands for the pair: no other
    user and name share it. *)
Theorem createSession_spec (homedir : jsstring) (userId : Z)
    (name : jsstring) (cwd : option jsstring) (st : state) :
  (forall other otherName,
      sessionKey other otherName = sessionKey userId name ->
      other = userId /\ otherName = name)
  /\ (is_Some (activeSessions st !! sessionKey userId name) ->
      createSession homedir userId name cwd st = (inl (alreadyExists name), st))
  /\ (activeSessions st !! sessionKey userId name = None ->
      let session :=
        {| Sessions.name := name; Sessions.userId := userId;
           Sessions.cwd := orElse cwd homedir; outputBuffer := [];
           isRunning := false |} in
      let st' := snd (createSession homedir userId name cwd st) in
      fst (createSession homedir userId name cwd st) = inr session
      /\ activeSessions st' !! sessionKey userId name = Some session
      /\ (forall k, k <> sessionKey userId name ->
                    activeSessions st' !! k = activeSessions st !! k)
      /\ size (activeSessions st') = S (size (activeSessions st))
      /\ sessionsTable st'
         = <[(userId, name) := orElse cwd homedir]> (sessionsTable st)
      /\ (cwd = None -> Sessions.cwd session = homedir)).
Proof.
  split; [intros other otherName; apply sessionKey_inj|].
  split.
  - intros [s Hs]. unfold createSession. now rewrite Hs.
  - intros Hnone. unfold createSession. rewrite Hnone.
    cbn [fst snd activeSessions sessionsTable Sessions.cwd].
    repeat split.
    + apply lookup_insert_eq.
    + intros k Hk. now apply lookup_insert_ne.
    + now apply map_size_insert_None.
    + now intros ->.
Qed.

Lemma createSession_spec_witness :
  fst (createSession (lit "/home/me") 7 (lit "build") None
         {| activeSessions := ∅; sessionsTable := ∅ |})
  = inr {| Sessions.name := lit "build"; Sessions.userId := 7;
           cwd := lit "/home/me"; outputBuffer := []; isRunning := false |}.
Proof.
  refine (proj1 (proj2 (proj2 (createSession_spec (lit "/home/me") 7
            (lit "build") None
            {| activeSessions := ∅; sessionsTable := ∅ |})) _)).
  apply lookup_empty.
Defined.

End SessionFacts.

(** ** The executor *)

Section ExecutorFacts.
Import Executor.

Lemma sliceFrom_tail_length {A} (n : Z) (x : list A) :
  (0 < n)%Z -> length (sliceFrom (- n) x) = Nat.min (Z.to_nat n) (length x).
Proof.
  intros Hn. unfold sliceFrom, clampIndex.
  destruct (Z.ltb_spec (- n) 0); [|lia].
  rewrite length_drop. lia.
Qed.

Lemma sliceFrom_tail_suffix {A} (n : Z) (x : list A) :
  exists dropped, x = dropped ++ sliceFrom (- n) x.
Proof.
  unfold sliceFrom. eexists. symmetry. apply take_drop.
Qed.

(** While it accumulates, a buffer never ends a ['data'] handler longer than
    twice the budget. *)
Lemma collect_bound (maxOutput : Z) (buffer text : jsstring) :
  (0 < maxOutput)%Z ->
  (Z.of_nat (length (collect maxOutput buffer text)) <= 2 * maxOutput)%Z.
Proof.
  intros Hm. unfold collect.
  destruct (Z.ltb_spec (maxOutput * 2) (Z.of_nat (length (buffer ++ text)))).
  - rewrite sliceFrom_tail_length by exact Hm. lia.
  - lia.
Qed.

Lemma buffersAfter_bound (maxOutput : Z) (events : list data) :
  (0 < maxOutput)%Z ->
  (Z.of_nat (length (fst (buffersAfter maxOutput events))) <= 2 * maxOutput
   /\ Z.of_nat (length (snd (buffersAfter maxOutput events))) <= 2 * maxOutput)%Z.
Proof.
  intros Hm. unfold buffersAfter.
  assert (H0 : (Z.of_nat (length (fst (@nil N, @nil N))) <= 2 * maxOutput
                /\ Z.of_nat (length (snd (@nil N, @nil N))) <= 2 * maxOutput)%Z)
    by (cbn; lia).
  revert H0. generalize (@nil N, @nil N). 
  induction events as [|d ds IH]; intros b Hb; [exact Hb|].
  cbn [fold_left]. apply IH.
  destruct d; cbn [onData fst snd]; split;
    try apply collect_bound; tauto.
Qed.

(** On a normal exit that is not a successful [cd], the output is the tail
    of the combined text, at most the budget long, and the flag tells
    whether that last cut removed anything. *)
Lemma onClose_plain existsSync options (cdMatched : bool)
    (stdout stderr : jsstring) (closeCode : option Z) (elapsed : Z) :
  (0 < maxOutput options)%Z ->
  cdMatched && bool_decide (closeCode = Some 0%Z) = false ->
  let combined :=
    stdout ++ match stderr with [] => [] | _ :: _ => LF :: stderr end in
  let r := onClose existsSync options cdMatched stdout stderr closeCode elapsed in
  (exists dropped, combined = dropped ++ output r)
  /\ (Z.of_nat (length (output r)) <= maxOutput options)%Z
  /\ (truncated r = true <-> length (output r) < length combined)%nat
  /\ newCwd r = None.
Proof.
  intros Hm Hcd combined r. subst r. unfold onClose. rewrite Hcd.
  cbn [output truncated newCwd]. fold combined.
  split; [apply sliceFrom_tail_suffix|].
  rewrite sliceFrom_tail_length by exact Hm.
  repeat split; lia.
Qed.

(** C6 fails on this run. With a budget of 4 the child writes nine
    units at once: the ['data'] handler cuts the buffer back to its last
    four, the final cut then removes nothing, and the result carries
    [truncated = false] although five units of output are gone. *)
Theorem live_cut_is_not_flagged :
  let options := {| shell := lit "/bin/sh"; timeout := 30000; maxOutput := 4 |} in
  let events := [Stdout (lit "123456789")] in
  let r := runCommand (fun _ => false) options (lit "printf 123456789")
             events (Closes (Some 0%Z)) 12 in
  written events = lit "123456789"
  /\ buffersAfter 4 events = (lit "6789", [])
  /\ output r = lit "6789"
  /\ truncated r = false.
Proof. vm_compute. repeat split. Qed.

(** A failed [cd] leaves a non-zero exit code, and then no new working
    directory is reported. *)
Lemma failed_cd_reports_nothing existsSync options (command : jsstring)
    (events : list data) (closeCode : option Z) (elapsed : Z) :
  closeCode <> Some 0%Z ->
  newCwd (runCommand existsSync options command events (Closes closeCode) elapsed)
  = None.
Proof.
  intros Hc. unfold runCommand.
  destruct (buffersAfter (maxOutput options) events) as [stdout stderr].
  unfold onClose. rewrite bool_decide_eq_false_2 by exact Hc.
  now rewrite andb_false_r.
Qed.

(** A quiet [cd /tmp && ls]: the probe line is found, reported and taken
    out of the output. *)
Example cd_probe_reported :
  let options := {| shell := lit "/bin/sh"; timeout := 30000; maxOutput := 4000 |} in
  let r := runCommand (fun p => bool_decide (p = lit "/tmp")) options
             (lit "cd /tmp && ls")
             [Stdout (lit "a.txt" ++ [LF] ++ lit "/tmp" ++ [LF])]
             (Closes (Some 0%Z)) 12 in
  wrappedCommand (lit "cd /tmp && ls") = lit "cd /tmp && ls && pwd"
  /\ newCwd r = Some (lit "/tmp") /\ output r = lit "a.txt".
Proof. vm_compute. repeat split. Qed.

(** C7 fails on this run. [cd /tmp && echo warn >&2] succeeds in an
    existing directory, the probe prints [/tmp] on standard output and the
    command one line on standard error; the handler appends standard error
    after standard output, takes [warn] for the candidate path, and reports
    no new working directory while the probe line stays in the output. *)
Theorem cd_probe_hidden_by_stderr :
  let options := {| shell := lit "/bin/sh"; timeout := 30000; maxOutput := 4000 |} in
  let command := lit "cd /tmp && echo warn >&2" in
  let r := runCommand (fun p => bool_decide (p = lit "/tmp")) options command
             [Stdout (lit "/tmp" ++ [LF]); Stderr (lit "warn" ++ [LF])]
             (Closes (Some 0%Z)) 12 in
  cdMatch command = true
  /\ exitCode r = 0%Z
  /\ newCwd r = None
  /\ output r = lit "/tmp" ++ [LF; LF] ++ lit "warn" ++ [LF].
Proof. vm_compute. repeat split. Qed.

(** Starting a command for a key that the table holds: the old child gets
    SIGTERM, a kill timer is set for it, its entry is deleted, and only then
    is the new child entered under the key. *)
Lemma startCommand_aborts_registered (key : jsstring) (proc : nat) (w : world) :
  runningProcesses w !! key = Some proc ->
  let aborted := snd (abort key w) in
  startCommand key w = register key aborted
  /\ runningProcesses aborted !! key = None
  /\ signals aborted = signals w ++ [(proc, SIGTERM)]
  /\ killTimers aborted = killTimers w ++ [proc]
  /\ runningProcesses (startCommand key w) !! key = Some (length (spawned w))
  /\ signals (startCommand key w) = signals w ++ [(proc, SIGTERM)].
Proof.
  intros H. unfold startCommand, abort. rewrite H.
  cbn [snd runningProcesses signals killTimers register spawned].
  repeat split.
  - apply lookup_delete_eq.
  - apply lookup_insert_eq.
Qed.

(** The timer of [abort] delivers SIGKILL when it fires. *)
Lemma kill_timer_delivers_SIGKILL (proc : nat) (w : world) :
  mem proc (killTimers w) = true ->
  signals (step w (KillTimerFires proc)) = signals w ++ [(proc, SIGKILL)].
Proof. intros H. cbn [step]. now rewrite H. Qed.

(** C9 fails on this trace. Two commands are started for one key, so the
    first child is aborted and the second registered; when the first child
    closes, its handler deletes the key, which by then names the second
    child.  A third command then finds nothing to abort: the second child
    gets no signal and runs on beside the third. *)
Theorem stale_close_unregisters_running_process :
  let key := Sessions.sessionKey 7 (lit "default") in
  let before := run [Start key; Start key] in
  let closed := step before (ProcClose 0) in
  let after := step closed (Start key) in
  runningProcesses before !! key = Some 1%nat
  /\ signals before = [(0%nat, SIGTERM)]
  /\ runningProcesses closed !! key = None
  /\ inFlight key closed = [1%nat]
  /\ fst (abort key closed) = false
  /\ runningProcesses after !! key = Some 2%nat
  /\ signals after = [(0%nat, SIGTERM)]
  /\ inFlight key after = [1%nat; 2%nat].
Proof. vm_compute. repeat split. Qed.

End ExecutorFacts.

(** ** Cutting a screen into messages *)

Section DeliveryFacts.
Import Delivery.

Lemma split_not_nil (sep : N) (s : jsstring) : split sep s <> [].
Proof.
  destruct s as [|c r]; cbn [split]; [discriminate|].
  destruct (c =? sep); [discriminate|]. now destruct (split sep r).
Qed.

Lemma join_split (sep : N) (s : jsstring) : join [sep] (split sep s) = s.
Proof.
  induction s as [|c r IH]; [reflexivity|]. cbn [split].
  destruct (N.eqb_spec c sep) as [->|Hne].
  - pose proof (split_not_nil sep r) as Hn.
    destruct (split sep r) as [|h t]; [congruence|].
    cbn [join app] in *. now rewrite IH.
  - pose proof (split_not_nil sep r) as Hn.
    destruct (split sep r) as [|h t]; [congruence|].
    destruct t; cbn [join app] in *; now rewrite <- IH.
Qed.

Lemma split_no_sep (sep : N) (s : jsstring) :
  Forall (fun l => ~ In sep l) (split sep s).
Proof.
  induction s as [|c r IH]; cbn [split].
  - repeat constructor. intros [].
  - destruct (N.eqb_spec c sep) as [->|Hne].
    + constructor; [intros [] | exact IH].
    + destruct (split sep r) as [|h t].
      * repeat constructor. intros [H|[]]. congruence.
      * inversion IH as [|? ? Hh Ht]; subst. constructor; [|exact Ht].
        intros [H|H]; [congruence | tauto].
Qed.

Lemma split_line (sep : N) (l : jsstring) : ~ In sep l -> split sep l = [l].
Proof.
  induction l as [|c r IH]; intros H; [reflexivity|]. cbn [split].
  destruct (N.eqb_spec c sep) as [->|Hne].
  - exfalso. apply H. now left.
  - rewrite IH; [reflexivity|]. intros Hin. apply H. now right.
Qed.

Lemma split_app (sep : N) (a b : jsstring) :
  split sep (a ++ [sep] ++ b) = split sep a ++ split sep b.
Proof.
  induction a as [|c r IH]; cbn [split app].
  - now rewrite N.eqb_refl.
  - cbn [app] in IH. rewrite IH.
    destruct (c =? sep); [reflexivity|].
    pose proof (split_not_nil sep r) as Hn.
    now destruct (split sep r).
Qed.












End DeliveryFacts.

(** ** The rest of the session manager *)

Section SessionManagerFacts.
Import Sessions SessionManager.

(** X1. The test of [listActiveSessions] accepts the key of a session
    exactly when the session belongs to the user asked for: no user id is a
    prefix of another one's key. *)
Theorem isKeyOfUser_sessionKey (u v : Z) (name : jsstring) :
  isKeyOfUser u (sessionKey v name) = true <-> u = v.
Proof.
  unfold isKeyOfUser, sessionKey. split.
  - intros H. apply startsWith_spec in H as [post H].
    rewrite <- app_assoc in H. symmetry in H.
    apply colon_split in H as [H _]; auto using numberToString_no_colon.
    now apply numberToString_inj.
  - intros ->. apply startsWith_spec. exists name. now rewrite <- app_assoc.
Qed.

Lemma consistent_empty : consistent {| activeSessions := ∅; sessionsTable := ∅ |}.
Proof. intros key s H. cbn in H. now rewrite lookup_empty in H. Qed.

Lemma pair_of_key (u v : Z) (m n : jsstring) :
  sessionKey u m <> sessionKey v n -> (u, m) <> (v, n).
Proof. intros H E. injection E as -> ->. now apply H. Qed.

Lemma consistent_createSession homedir userId name cwd st :
  consistent st -> consistent (snd (createSession homedir userId name cwd st)).
Proof.
  intros Hc. unfold createSession.
  destruct (activeSessions st !! sessionKey userId name) eqn:E; [exact Hc|].
  intros key s. cbn [snd activeSessions sessionsTable]. unfold saveSession.
  destruct (decide (key = sessionKey userId name)) as [->|Hne].
  - rewrite lookup_insert_eq. intros [= <-]. cbn.
    split; [reflexivity | apply lookup_insert_eq].
  - rewrite lookup_insert_ne by congruence. intros H.
    destruct (Hc _ _ H) as [Hk Ht]. split; [exact Hk|].
    rewrite lookup_insert_ne; [exact Ht|].
    apply pair_of_key. congruence.
Qed.

Lemma consistent_closeSession userId name st :
  consistent st -> consistent (snd (closeSession userId name st)).
Proof.
  intros Hc. unfold closeSession.
  destruct (activeSessions st !! sessionKey userId name) eqn:E; [|exact Hc].
  intros key s. cbn [snd activeSessions sessionsTable]. unfold deleteSession.
  destruct (decide (key = sessionKey userId name)) as [->|Hne].
  - now rewrite lookup_delete_eq.
  - rewrite lookup_delete_ne by congruence. intros H.
    destruct (Hc _ _ H) as [Hk Ht]. split; [exact Hk|].
    rewrite lookup_delete_ne; [exact Ht|].
    apply pair_of_key. congruence.
Qed.

Lemma consistent_updateCwd userId name newCwd st :
  consistent st -> consistent (updateCwd userId name newCwd st).
Proof.
  intros Hc. unfold updateCwd, getActiveSession.
  destruct (activeSessions st !! sessionKey userId name) as [old|] eqn:E;
    [|exact Hc].
  destruct (Hc _ _ E) as [Hk Ht].
  apply sessionKey_inj in Hk as [Hu Hn].
  intros key s. cbn [activeSessions sessionsTable]. unfold updateSessionCwd.
  destruct (decide (key = sessionKey userId name)) as [->|Hne].
  - rewrite lookup_insert_eq. intros [= <-]. cbn.
    rewrite <- Hu, <- Hn. split; [reflexivity|].
    rewrite lookup_alter_eq, Hu, Hn, Ht. reflexivity.
  - rewrite lookup_insert_ne by congruence. intros H.
    destruct (Hc _ _ H) as [Hk' Ht']. split; [exact Hk'|].
    rewrite lookup_alter_ne; [exact Ht'|].
    apply pair_of_key. congruence.
Qed.

Lemma restoreStep_table userId acc saved :
  sessionsTable (snd (restoreStep userId acc saved)) = sessionsTable (snd acc).
Proof.
  unfold restoreStep. now destruct (activeSessions (snd acc) !! _).
Qed.

Lemma consistent_restoreStep userId acc saved :
  sessionsTable (snd acc) !! (userId, savedName saved) = Some (savedCwd saved) ->
  consistent (snd acc) -> consistent (snd (restoreStep userId acc saved)).
Proof.
  intros Hrow Hc. unfold restoreStep.
  destruct (activeSessions (snd acc) !! sessionKey userId (savedName saved))
    eqn:E; [exact Hc|].
  intros key s. cbn [snd activeSessions sessionsTable].
  destruct (decide (key = sessionKey userId (savedName saved))) as [->|Hne].
  - rewrite lookup_insert_eq. intros [= <-]. cbn. now split.
  - rewrite lookup_insert_ne by congruence. apply Hc.
Qed.

Lemma consistent_restore userId rows st :
  savedRows userId (sessionsTable st) rows ->
  consistent st -> consistent (snd (restoreSessionsFromDb userId rows st)).
Proof.
  unfold restoreSessionsFromDb, savedRows.
  change st with (snd (@nil TerminalSession, st)) at 1 2.
  generalize (@nil TerminalSession, st). clear st.
  induction rows as [|r rows IH]; intros acc Hrows Hc; [exact Hc|].
  inversion Hrows as [|? ? Hr Hrest]; subst. cbn [fold_left].
  apply IH.
  - now rewrite restoreStep_table.
  - now apply consistent_restoreStep.
Qed.

Lemma consistent_default homedir userId st :
  consistent st -> consistent (snd (getOrCreateDefaultSession homedir userId st)).
Proof.
  intros Hc. unfold getOrCreateDefaultSession, getActiveSession, getSession.
  destruct (activeSessions st !! sessionKey userId defaultName) eqn:E;
    [exact Hc|].
  destruct (sessionsTable st !! (userId, defaultName)) as [c|] eqn:Et;
    cbn [fmap option_fmap option_map].
  - intros key s. cbn [snd activeSessions sessionsTable].
    destruct (decide (key = sessionKey userId defaultName)) as [->|Hne].
    + rewrite lookup_insert_eq. intros [= <-]. cbn. now split.
    + rewrite lookup_insert_ne by congruence. apply Hc.
  - now apply consistent_createSession.
Qed.

(** X2. Every call of the session manager keeps the map and the table in
    step: afterwards each active session is still filed under the key of its
    own user and name, and the table still records its working
    directory. *)
Theorem session_calls_keep_consistency (homedir : jsstring) (c : call)
    (st : state) :
  consistent st -> fromTable c st -> consistent (after homedir c st).
Proof.
  intros Hc Hf. destruct c; cbn [after].
  - now apply consistent_createSession.
  - now apply consistent_closeSession.
  - now apply consistent_updateCwd.
  - now apply consistent_restore.
  - now apply consistent_default.
Qed.

Lemma session_calls_keep_consistency_witness :
  consistent (after (lit "/home/me") (UpdateCwd 7 (lit "build") (lit "/tmp"))
                (after (lit "/home/me") (CreateSession 7 (lit "build") None)
                   {| activeSessions := ∅; sessionsTable := ∅ |})).
Proof.
  apply session_calls_keep_consistency; [|exact I].
  apply session_calls_keep_consistency; [|exact I].
  apply consistent_empty.
Defined.

(** X3. [closeSession] on a session that is not active answers [false] and
    changes nothing; on an active one it answers [true], removes the map
    entry and the table row of that session and of no other, and the name
    is free again for [createSession]. *)
Theorem closeSession_spec (homedir : jsstring) (userId : Z)
    (name : jsstring) (st : state) :
  (getActiveSession userId name st = None ->
   closeSession userId name st = (false, st))
  /\ (is_Some (getActiveSession userId name st) ->
      let st' := snd (closeSession userId name st) in
      fst (closeSession userId name st) = true
      /\ getActiveSession userId name st' = None
      /\ getSession userId name (sessionsTable st') = None
      /\ (forall v m, (v, m) <> (userId, name) ->
            getActiveSession v m st' = getActiveSession v m st
            /\ getSession v m (sessionsTable st') = getSession v m (sessionsTable st))
      /\ exists session,
           fst (createSession homedir userId name None st') = inr session).
Proof.
  unfold getActiveSession, closeSession. split.
  - intros H. now rewrite H.
  - intros [s Hs]. rewrite Hs.
    cbn [fst snd activeSessions sessionsTable].
    unfold getSession, deleteSession. repeat split.
    + apply lookup_delete_eq.
    + now rewrite lookup_delete_eq.
    + rewrite lookup_delete_ne; [reflexivity|].
      intros E. apply sessionKey_inj in E as [-> ->]. congruence.
    + rewrite lookup_delete_ne; [reflexivity | congruence].
    + unfold createSession. cbn [activeSessions].
      rewrite lookup_delete_eq. eexists. reflexivity.
Qed.

Lemma closeSession_spec_witness :
  fst (closeSession 7 (lit "build")
         (snd (createSession (lit "/home/me") 7 (lit "build") None
                 {| activeSessions := ∅; sessionsTable := ∅ |}))) = true.
Proof.
  refine (proj1 (proj2 (closeSession_spec (lit "/home/me") 7 (lit "build") _) _)).
  unfold getActiveSession, createSession. cbn [activeSessions].
  rewrite lookup_empty. cbn [snd activeSessions].
  rewrite lookup_insert_eq. eexists. reflexivity.
Defined.

(** X4. [getOrCreateDefaultSession] never throws: it returns a session,
    that session is afterwards the active one under the user's [default]
    key, and a second call returns the same session and changes nothing. *)
Theorem getOrCreateDefaultSession_total (homedir : jsstring) (userId : Z)
    (st : state) :
  exists session,
    let st' := snd (getOrCreateDefaultSession homedir userId st) in
    fst (getOrCreateDefaultSession homedir userId st) = inr session
    /\ getActiveSession userId defaultName st' = Some session
    /\ getOrCreateDefaultSession homedir userId st' = (inr session, st').
Proof.
  assert (Hins : forall s table,
    getOrCreateDefaultSession homedir userId
      {| activeSessions := <[sessionKey userId defaultName := s]> (activeSessions st);
         sessionsTable := table |}
    = (inr s,
       {| activeSessions := <[sessionKey userId defaultName := s]> (activeSessions st);
          sessionsTable := table |})).
  { intros s table. unfold getOrCreateDefaultSession, getActiveSession.
    cbn [activeSessions]. now rewrite lookup_insert_eq. }
  destruct (getOrCreateDefaultSession homedir userId st) as [res st'] eqn:Eq.
  cbn zeta. cbn [fst snd].
  unfold getOrCreateDefaultSession in Eq.
  destruct (getActiveSession userId defaultName st) as [s|] eqn:E.
  - injection Eq as <- <-. exists s. repeat split; [exact E|].
    unfold getOrCreateDefaultSession. now rewrite E.
  - unfold getActiveSession in E.
    destruct (getSession userId defaultName (sessionsTable st)) as [saved|].
    + injection Eq as <- <-. eexists. repeat split.
      * unfold getActiveSession. cbn [activeSessions]. apply lookup_insert_eq.
      * apply Hins.
    + unfold createSession in Eq. rewrite E in Eq. injection Eq as <- <-.
      eexists. repeat split.
      * unfold getActiveSession. cbn [activeSessions]. apply lookup_insert_eq.
      * apply Hins.
Qed.

Lemma restoreStep_keeps userId acc saved key s :
  activeSessions (snd acc) !! key = Some s ->
  activeSessions (snd (restoreStep userId acc saved)) !! key = Some s.
Proof.
  intros H. unfold restoreStep.
  destruct (activeSessions (snd acc) !! sessionKey userId (savedName saved))
    eqn:E; [exact H|].
  cbn [snd activeSessions]. rewrite lookup_insert_ne; [exact H | congruence].
Qed.

Lemma restore_keeps userId rows acc key s :
  activeSessions (snd acc) !! key = Some s ->
  activeSessions (snd (fold_left (restoreStep userId) rows acc)) !! key = Some s.
Proof.
  revert acc. induction rows as [|r rows IH]; intros acc H; [exact H|].
  cbn [fold_left]. apply IH. now apply restoreStep_keeps.
Qed.

Lemma restore_covers userId rows acc r :
  In r rows ->
  is_Some (activeSessions (snd (fold_left (restoreStep userId) rows acc))
           !! sessionKey userId (savedName r)).
Proof.
  revert acc. induction rows as [|x rows IH]; intros acc Hin; [destruct Hin|].
  destruct Hin as [->|Hin].
  - cbn [fold_left].
    assert (H : is_Some (activeSessions (snd (restoreStep userId acc r))
                         !! sessionKey userId (savedName r))).
    { unfold restoreStep.
      destruct (activeSessions (snd acc) !! sessionKey userId (savedName r))
        eqn:E; [now rewrite E|].
      cbn [snd activeSessions]. rewrite lookup_insert_eq. eauto. }
    destruct H as [s Hs]. exists s. now apply restore_keeps.
  - cbn [fold_left]. now apply IH.
Qed.

Lemma restore_table userId rows acc :
  sessionsTable (snd (fold_left (restoreStep userId) rows acc))
  = sessionsTable (snd acc).
Proof.
  revert acc. induction rows as [|r rows IH]; intros acc; [reflexivity|].
  cbn [fold_left]. rewrite IH. apply restoreStep_table.
Qed.

Lemma restore_nothing_new userId rows acc :
  (forall r, In r rows ->
     is_Some (activeSessions (snd acc) !! sessionKey userId (savedName r))) ->
  fold_left (restoreStep userId) rows acc = acc.
Proof.
  induction rows as [|x rows IH]; intros H; [reflexivity|].
  cbn [fold_left].
  assert (Hx : restoreStep userId acc x = acc).
  { unfold restoreStep. destruct (H x) as [s Hs]; [now left|]. now rewrite Hs. }
  rewrite Hx. apply IH. intros r Hr. apply H. now right.
Qed.

(** X5. [restoreSessionsFromDb] never replaces a session that is already
    active; afterwards every row it was given has an active session; and
    running it again with the same rows restores nothing and changes
    nothing. *)
Theorem restoreSessionsFromDb_spec (userId : Z)
    (savedSessions : list SessionRecord) (st : state) :
  let st' := snd (restoreSessionsFromDb userId savedSessions st) in
  (forall key s,
      activeSessions st !! key = Some s -> activeSessions st' !! key = Some s)
  /\ (forall r, In r savedSessions ->
        is_Some (getActiveSession userId (savedName r) st'))
  /\ sessionsTable st' = sessionsTable st
  /\ restoreSessionsFromDb userId savedSessions st' = ([], st').
Proof.
  cbn zeta. unfold restoreSessionsFromDb, getActiveSession. repeat split.
  - intros key s H. now apply restore_keeps.
  - intros r Hr. now apply restore_covers.
  - apply (restore_table userId savedSessions ([], st)).
  - apply restore_nothing_new. intros r Hr. cbn [snd]. now apply restore_covers.
Qed.

Lemma restoreSessionsFromDb_spec_witness :
  is_Some
    (getActiveSession 7 (lit "build")
       (snd (restoreSessionsFromDb 7
               [{| savedName := lit "build"; savedCwd := lit "/srv" |}]
               {| activeSessions := ∅; sessionsTable := ∅ |}))).
Proof.
  apply (proj1 (proj2 (restoreSessionsFromDb_spec 7
                         [{| savedName := lit "build"; savedCwd := lit "/srv" |}]
                         {| activeSessions := ∅; sessionsTable := ∅ |}))
           {| savedName := lit "build"; savedCwd := lit "/srv" |}).
  now left.
Defined.

End SessionManagerFacts.

(** ** The per-user part of the tmux bridge *)

Section TmuxUserFacts.
Import Tmux TmuxUsers.

Lemma afterAll_valid (calls : list call) (u : Z) (name : jsstring) :
  afterAll calls !! u = Some name -> isValidSessionName name = true.
Proof.
  unfold afterAll.
  assert (H0 : forall v n, (∅ : gmap Z (list N)) !! v = Some n ->
                           isValidSessionName n = true).
  { intros v n H. now rewrite lookup_empty in H. }
  revert H0 u name. generalize (∅ : gmap Z (list N)).
  induction calls as [|c calls IH]; intros m Hm u name; [apply Hm|].
  cbn [fold_left]. apply IH. clear IH u name.
  intros v n. destruct c as [w sn|w]; cbn [after].
  - unfold setUserTmuxSession, sanitizeSessionName.
    destruct (isValidSessionName sn) eqn:E; [|apply Hm].
    destruct (decide (w = v)) as [->|Hne].
    + rewrite lookup_insert_eq. now intros [= <-].
    + rewrite lookup_insert_ne by exact Hne. apply Hm.
  - unfold clearUserTmuxSession.
    destruct (decide (w = v)) as [->|Hne].
    + now rewrite lookup_delete_eq.
    + rewrite lookup_delete_ne by exact Hne. apply Hm.
Qed.

(** X6. Whatever users attach and detach, every name the bridge keeps for a
    user matches [^[A-Za-z0-9_-]{1,50}$].  So a user-aware wrapper throws
    only for a user who is not attached; for an attached user it never fails
    on the session name and sends its command to that user's session. *)
Theorem attached_user_reaches_tmux (env : option jsstring)
    (calls : list call) (userId : Z) (text : jsstring) :
  let userSessions := afterAll calls in
  (isUserInTmuxMode userId userSessions = false
   /\ sendToUserTmux env userSessions userId text = Throws notAttached
   /\ sendEnterToUserTmux env userSessions userId = Throws notAttached
   /\ sendCtrlCToUserTmux env userSessions userId = Throws notAttached
   /\ capturePaneForUser env userSessions userId = Throws notAttached
   /\ clearScrollbackForUser env userSessions userId = Throws notAttached)
  \/ (exists name,
        userSessions !! userId = Some name
        /\ matchesSessionPattern name = true
        /\ isUserInTmuxMode userId userSessions = true
        /\ sendToUserTmux env userSessions userId text
           = Execs (lit "tmux send-keys -t " ++ name ++ lit " " ++ [DQUOTE]
                    ++ escaped text ++ [DQUOTE])
        /\ sendEnterToUserTmux env userSessions userId
           = Execs (lit "tmux send-keys -t " ++ name ++ lit " Enter")
        /\ sendCtrlCToUserTmux env userSessions userId
           = Execs (lit "tmux send-keys -t " ++ name ++ lit " C-c")
        /\ capturePaneForUser env userSessions userId
           = Execs (lit "tmux capture-pane -t " ++ name ++ lit " -p -S -500")
        /\ clearScrollbackForUser env userSessions userId
           = Execs (lit "tmux clear-history -t " ++ name)).
Proof.
  cbn zeta.
  unfold sendToUserTmux, sendEnterToUserTmux, sendCtrlCToUserTmux,
    capturePaneForUser, clearScrollbackForUser, forUser,
    getUserTmuxSession, isUserInTmuxMode.
  destruct (afterAll calls !! userId) as [name|] eqn:E.
  - right. exists name.
    pose proof (afterAll_valid _ _ _ E) as Hv.
    assert (Hs : session env (Some name) = inr name).
    { destruct name as [|c r]; [discriminate Hv|].
      cbn [session]. unfold sanitizeSessionName. now rewrite Hv. }
    destruct name as [|c r]; [discriminate Hv|].
    unfold sendToTmux, sendEnterToTmux, sendCtrlC, capturePane,
      clearScrollback, withSession. rewrite Hs.
    rewrite <- matchesSessionPattern_valid.
    repeat split; assumption.
  - left. repeat split.
Qed.

Lemma sliceFrom_length_app {A} (a b : list A) :
  sliceFrom (Z.of_nat (length a)) (a ++ b) = b.
Proof.
  unfold sliceFrom, clampIndex.
  destruct (Z.ltb_spec (Z.of_nat (length a)) 0); [lia|].
  rewrite Nat2Z.id, length_app, Nat.min_l by lia.
  apply drop_app_length.
Qed.

Lemma split_terminated (old : jsstring) :
  split LF (old ++ [LF]) = split LF old ++ [[]].
Proof.
  rewrite <- (app_nil_r [LF]). now rewrite split_app.
Qed.

Lemma split_after_terminated (old line more : jsstring) :
  ~ In LF line ->
  split LF ((old ++ [LF]) ++ line ++ [LF] ++ more)
  = (split LF old ++ [line]) ++ split LF more.
Proof.
  intros Hline. rewrite <- (app_assoc old [LF]).
  rewrite !split_app, (split_line _ _ Hline). now rewrite app_assoc.
Qed.

(** X7. Polling with [capturePaneSinceLast]: from line count 0 the whole
    trimmed capture is returned; polling again with the count it returned
    gives no content while the capture is unchanged; when the capture has
    grown by a newline and more text, that text is returned trimmed.  But
    when the earlier capture already ended in a newline, as every line that
    tmux prints does, the count is one too high: the first line that was
    appended is left out, and one appended line alone gives no content.
    When tmux fails the caller's count is kept. *)
Theorem capturePaneSinceLast_polls (env sessionName : option jsstring)
    (s old more line : jsstring) :
  Tmux.session env sessionName = inr s ->
  ~ In LF line ->
  let count := Z.of_nat (length (split LF old)) in
  capturePaneSinceLast env (fun _ => Some old) 0 sessionName
  = inr (trim old, count)
  /\ capturePaneSinceLast env (fun _ => Some old) count sessionName
     = inr ([], count)
  /\ capturePaneSinceLast env (fun _ => Some (old ++ [LF] ++ more)) count
       sessionName
     = inr (trim more, (count + Z.of_nat (length (split LF more)))%Z)
  /\ (let terminated := old ++ [LF] in
      let count' := Z.of_nat (length (split LF terminated)) in
      capturePaneSinceLast env
        (fun _ => Some (terminated ++ line ++ [LF] ++ more)) count' sessionName
      = inr (trim more, (count' + Z.of_nat (length (split LF more)))%Z)
      /\ capturePaneSinceLast env
           (fun _ => Some (terminated ++ line ++ [LF])) count' sessionName
         = inr ([], (count' + 1)%Z))
  /\ capturePaneSinceLast env (fun _ => None) count sessionName
     = inr ([], count).
Proof.
  intros Hs Hline count. unfold capturePaneSinceLast. rewrite Hs.
  unfold sinceLast. fold count.
  assert (Hpos : (0 < count)%Z).
  { unfold count. pose proof (split_not_nil LF old).
    destruct (split LF old); [congruence | cbn [length]; lia]. }
  assert (Hskip : forall more',
    (let terminated := old ++ [LF] in
     let count' := Z.of_nat (length (split LF terminated)) in
     (let lines := split LF (terminated ++ line ++ [LF] ++ more') in
      if (count' <? Z.of_nat (length lines))%Z
      then (trim (join [LF] (sliceFrom count' lines)), Z.of_nat (length lines))
      else ([], Z.of_nat (length lines)))
     = (trim more', (count' + Z.of_nat (length (split LF more')))%Z))).
  { intros more'. cbn zeta.
    rewrite (split_after_terminated old line more' Hline), split_terminated.
    change [([] : jsstring)] with (repeat ([] : jsstring) 1).
    replace (length (split LF old ++ repeat [] 1))
      with (length (split LF old ++ [line]))
      by (rewrite !length_app; reflexivity).
    rewrite sliceFrom_length_app, join_split.
    pose proof (split_not_nil LF more').
    rewrite (length_app (split LF old ++ [line])), Nat2Z.inj_add.
    destruct (Z.ltb_spec (Z.of_nat (length (split LF old ++ [line])))
                (Z.of_nat (length (split LF old ++ [line]))
                 + Z.of_nat (length (split LF more')))) as [_|Hge];
      [reflexivity|].
    destruct (split LF more'); [congruence | cbn [length] in *; lia]. }
  repeat split.
  - destruct (Z.ltb_spec 0 count); [|lia].
    change (sliceFrom 0 (split LF old)) with (split LF old).
    now rewrite join_split.
  - destruct (Z.ltb_spec count count); [lia | reflexivity].
  - rewrite split_app, length_app, Nat2Z.inj_add. fold count.
    pose proof (split_not_nil LF more).
    destruct (Z.ltb_spec count (count + Z.of_nat (length (split LF more)))).
    + unfold count. now rewrite sliceFrom_length_app, join_split.
    + destruct (split LF more); [congruence | cbn [length] in *; lia].
  - f_equal. exact (Hskip more).
  - f_equal. exact (Hskip []).
Qed.

Lemma capturePaneSinceLast_polls_witness :
  capturePaneSinceLast None
    (fun _ => Some (lit "$ make" ++ [LF] ++ lit "ok" ++ [LF] ++ lit "done"
                    ++ [LF])) 3 None
  = inr ([], 4%Z).
Proof.
  assert (Hline : ~ In LF (lit "done")).
  { intros H. vm_compute in H.
    repeat match goal with
           | H : _ \/ _ |- _ => destruct H as [H|H]
           end; try discriminate; try contradiction. }
  exact (proj2 (proj1 (proj2 (proj2 (proj2
           (capturePaneSinceLast_polls None None (lit "termo-main")
              (lit "$ make" ++ [LF] ++ lit "ok") [] (lit "done")
              eq_refl Hline)))))).
Defined.

End TmuxUserFacts.

(** ** More of the executor *)

Section ExecutorMoreFacts.
Import Executor ExecutorMore.

Lemma collect_tail (maxOutput : Z) (buffer text : jsstring) :
  exists dropped, buffer ++ text = dropped ++ collect maxOutput buffer text.
Proof.
  unfold collect.
  destruct (maxOutput * 2 <? Z.of_nat (length (buffer ++ text)))%Z.
  - apply sliceFrom_tail_suffix.
  - now exists [].
Qed.

Lemma collect_all (maxOutput : Z) (buffer text : jsstring) :
  (Z.of_nat (length (buffer ++ text)) <= 2 * maxOutput)%Z ->
  collect maxOutput buffer text = buffer ++ text.
Proof.
  intros H. unfold collect.
  destruct (Z.ltb_spec (maxOutput * 2) (Z.of_nat (length (buffer ++ text))));
    [lia | reflexivity].
Qed.

Lemma fold_onData_tails (maxOutput : Z) (events : list data)
    (b : jsstring * jsstring) :
  (exists d, fst b ++ written events
             = d ++ fst (fold_left (onData maxOutput) events b))
  /\ (exists d, snd b ++ writtenErr events
                = d ++ snd (fold_left (onData maxOutput) events b)).
Proof.
  revert b. induction events as [|e events IH]; intros [b1 b2].
  - cbn. rewrite !app_nil_r. split; now exists [].
  - cbn [fold_left]. destruct (IH (onData maxOutput (b1, b2) e)) as [[d1 H1] [d2 H2]].
    destruct e as [t|t]; cbn [onData fst snd written writtenErr flat_map app] in *.
    + split; [|now exists d2].
      destruct (collect_tail maxOutput b1 t) as [d Hd].
      exists (d ++ d1). fold (written events).
      rewrite app_assoc, Hd, <- !app_assoc. now rewrite H1.
    + split; [now exists d1|].
      destruct (collect_tail maxOutput b2 t) as [d Hd].
      exists (d ++ d2). fold (writtenErr events).
      rewrite app_assoc, Hd, <- !app_assoc. now rewrite H2.
Qed.

Lemma fold_onData_all (maxOutput : Z) (events : list data)
    (b : jsstring * jsstring) :
  ((Z.of_nat (length (fst b ++ written events)) <= 2 * maxOutput)%Z ->
   fst (fold_left (onData maxOutput) events b) = fst b ++ written events)
  /\ ((Z.of_nat (length (snd b ++ writtenErr events)) <= 2 * maxOutput)%Z ->
      snd (fold_left (onData maxOutput) events b) = snd b ++ writtenErr events).
Proof.
  revert b. induction events as [|e events IH]; intros [b1 b2].
  - cbn. now rewrite !app_nil_r.
  - cbn [fold_left]. destruct (IH (onData maxOutput (b1, b2) e)) as [H1 H2].
    destruct e as [t|t]; cbn [onData fst snd written writtenErr flat_map app] in *;
      fold (written events) in *; fold (writtenErr events) in *.
    + split; [|exact H2]. intros Hlen.
      assert (Hc : collect maxOutput b1 t = b1 ++ t)
        by (apply collect_all; rewrite !length_app in *; lia).
      rewrite Hc in *. rewrite <- app_assoc in H1. now apply H1.
    + split; [exact H1|]. intros Hlen.
      assert (Hc : collect maxOutput b2 t = b2 ++ t)
        by (apply collect_all; rewrite !length_app in *; lia).
      rewrite Hc in *. rewrite <- app_assoc in H2. now apply H2.
Qed.

(** X8. Whatever the child writes and whatever the budget, each buffer is
    always a tail of what was written to its stream: output is dropped only
    from the front, never reordered or altered.  A stream that wrote no more
    than twice the budget is held in full. *)
Theorem buffers_are_tails (maxOutput : Z) (events : list data) :
  (exists dropped,
      written events = dropped ++ fst (buffersAfter maxOutput events))
  /\ (exists dropped,
        writtenErr events = dropped ++ snd (buffersAfter maxOutput events))
  /\ ((Z.of_nat (length (written events)) <= 2 * maxOutput)%Z ->
      fst (buffersAfter maxOutput events) = written events)
  /\ ((Z.of_nat (length (writtenErr events)) <= 2 * maxOutput)%Z ->
      snd (buffersAfter maxOutput events) = writtenErr events).
Proof.
  unfold buffersAfter.
  destruct (fold_onData_tails maxOutput events ([], [])) as [H1 H2].
  destruct (fold_onData_all maxOutput events ([], [])) as [H3 H4].
  repeat split; assumption.
Qed.

Lemma buffers_are_tails_witness :
  fst (buffersAfter 4 [Stdout (lit "ab"); Stderr (lit "x"); Stdout (lit "cdef")])
  = lit "abcdef".
Proof.
  refine (proj1 (proj2 (proj2 (buffers_are_tails 4 _))) _).
  vm_compute. discriminate.
Defined.

(** X9. [runCommand] reports a new working directory only for a command that
    matched the [cd] pattern and closed with exit code 0, and then the
    directory is a non-empty path that [existsSync] confirmed; a failing,
    failed-to-spawn or timed-out command never reports one. *)
Theorem newCwd_is_checked (existsSync : jsstring -> bool)
    (options : ExecuteOptions) (command : jsstring) (events : list data)
    (e : ending) (elapsed : Z) (dir : jsstring) :
  newCwd (runCommand existsSync options command events e elapsed) = Some dir ->
  cdMatch command = true
  /\ e = Closes (Some 0%Z)
  /\ dir <> []
  /\ existsSync dir = true.
Proof.
  unfold runCommand.
  destruct (buffersAfter (maxOutput options) events) as [stdout stderr].
  destruct e as [closeCode|message|]; [|discriminate|discriminate].
  unfold onClose.
  destruct (cdMatch command); [|discriminate].
  destruct (bool_decide_reflect (closeCode = Some 0%Z)) as [->|Hne];
    cbn [andb]; [|discriminate].
  match goal with
  | |- context [trim (List.last ?l [])] => destruct (trim (List.last l [])) as [|c r] eqn:El
  end; [discriminate|].
  destruct (existsSync (c :: r)) eqn:Ex; [|discriminate].
  cbn [newCwd]. intros [= <-]. repeat split; [discriminate | exact Ex].
Qed.

Lemma newCwd_is_checked_witness :
  cdMatch (lit "cd /tmp && ls") = true.
Proof.
  refine (proj1 (newCwd_is_checked (fun p => bool_decide (p = lit "/tmp"))
            {| shell := lit "/bin/sh"; timeout := 30000; maxOutput := 4000 |}
            (lit "cd /tmp && ls")
            [Stdout (lit "a.txt" ++ [LF] ++ lit "/tmp" ++ [LF])]
            (Closes (Some 0%Z)) 12 (lit "/tmp") _)).
  vm_compute. reflexivity.
Defined.

Lemma keyOf_spawned (proc : nat) (key : list N) (w : world) :
  wellFormed w -> keyOf proc w = Some key ->
  spawned w !! proc = Some (proc, key).
Proof.
  intros Hw. unfold keyOf.
  destruct (find _ (spawned w)) as [[q k]|] eqn:E; [|discriminate].
  cbn. intros [= <-]. apply find_some in E as [Hin Hq].
  cbn in Hq. apply Nat.eqb_eq in Hq. subst q.
  apply list_elem_of_In, list_elem_of_lookup in Hin as [i Hi].
  pose proof (wf_numbered w Hw i proc k Hi) as Heq. subst i. exact Hi.
Qed.

(** A step that spawns nothing, names in the table only children it named
    before, all of them other than [p], and adds marks for [p] alone. *)
Lemma wellFormed_shrink (p : nat) (w w' : world) :
  wellFormed w ->
  spawned w' = spawned w ->
  (p < length (spawned w))%nat ->
  (forall key q, runningProcesses w' !! key = Some q ->
                 runningProcesses w !! key = Some q /\ q <> p) ->
  (forall q, mem q (closeEmitted w') = true -> mem q (closeEmitted w) = true \/ q = p) ->
  (forall q, mem q (resolved w') = true -> mem q (resolved w) = true \/ q = p) ->
  (forall q, signalled q w' = true -> signalled q w = true \/ q = p) ->
  (forall q, signalled q w = true -> signalled q w' = true) ->
  (forall q, In q (killTimers w') ->
             In q (killTimers w) \/ signalled q w' = true) ->
  wellFormed w'.
Proof.
  intros Hw Hsp Hp Hreg Hex Hres Hsig Hmono Htim. constructor.
  - rewrite Hsp. apply (wf_numbered w Hw).
  - intros key q Hq. destruct (Hreg key q Hq) as [Hold Hne].
    destruct (wf_registered w Hw key q Hold) as (H1 & H2 & H3 & H4).
    rewrite Hsp. repeat split; [exact H1| | |].
    + destruct (mem q (closeEmitted w')) eqn:E; [|reflexivity].
      destruct (Hex q E); congruence.
    + destruct (mem q (resolved w')) eqn:E; [|reflexivity].
      destruct (Hres q E); congruence.
    + destruct (signalled q w') eqn:E; [|reflexivity].
      destruct (Hsig q E); congruence.
  - intros q Hq. destruct (Htim q Hq) as [H|H]; [|exact H].
    apply Hmono. now apply (wf_timers w Hw).
  - intros q Hq. rewrite Hsp.
    destruct Hq as [H|[H|H]].
    + destruct (Hex q H) as [H'| ->]; [|exact Hp]. apply (wf_bound w Hw). auto.
    + destruct (Hres q H) as [H'| ->]; [|exact Hp]. apply (wf_bound w Hw). auto.
    + destruct (Hsig q H) as [H'| ->]; [|exact Hp]. apply (wf_bound w Hw). auto.
Qed.

Lemma lookup_delete_other (key k : list N) (q : nat) (m : gmap (list N) nat) :
  delete key m !! k = Some q -> m !! k = Some q /\ k <> key.
Proof.
  destruct (decide (k = key)) as [->|Hne].
  - now rewrite lookup_delete_eq.
  - now rewrite lookup_delete_ne.
Qed.

(** Two children spawned for different keys are different children. *)
Lemma other_key_other_child (w : world) (p q : nat) (key k : list N) :
  spawned w !! p = Some (p, key) -> spawned w !! q = Some (q, k) ->
  k <> key -> q <> p.
Proof. intros Hp Hq Hne ->. congruence. Qed.

Lemma wellFormed_abort (key : list N) (w : world) :
  wellFormed w -> wellFormed (snd (abort key w)).
Proof.
  intros Hw. unfold abort.
  destruct (runningProcesses w !! key) as [p|] eqn:E; [|exact Hw].
  destruct (wf_registered w Hw key p E) as (Hsp & _).
  cbn [snd]. apply (wellFormed_shrink p w); cbn; auto.
  - now apply lookup_lt_Some in Hsp.
  - intros k q Hq. apply lookup_delete_other in Hq as [Hq Hne].
    split; [exact Hq|].
    destruct (wf_registered w Hw k q Hq) as (Hsq & _).
    now apply (other_key_other_child w p q key k).
  - intros q. unfold signalled. cbn. rewrite existsb_app. cbn.
    rewrite orb_false_r, orb_true_iff, Nat.eqb_eq. intuition.
  - intros q. unfold signalled. cbn. rewrite existsb_app. intros Hq. now rewrite Hq.
  - intros q Hq. apply in_app_or in Hq as [Hq|[<-|[]]]; [now left|].
    right. unfold signalled. cbn. rewrite existsb_app. cbn.
    now rewrite Nat.eqb_refl, orb_true_r.
Qed.

Lemma signalled_app (q : nat) (w : world) (more : list (nat * signal)) :
  existsb (fun s => Nat.eqb (fst s) q) (signals w ++ more) = true
  <-> signalled q w = true \/ In q (fst <$> more).
Proof.
  unfold signalled. rewrite existsb_app, orb_true_iff.
  split; (intros [H|H]; [now left | right]).
  - apply existsb_exists in H as [[p sg] [Hin Hp]]. cbn in Hp.
    apply Nat.eqb_eq in Hp. subst p. apply in_map_iff. now exists (q, sg).
  - apply in_map_iff in H as [[p sg] [Hp Hin]]. cbn in Hp. subst p.
    apply existsb_exists. exists (q, sg).
    split; [exact Hin | apply Nat.eqb_refl].
Qed.

Lemma wellFormed_abortAll (w : world) : wellFormed w -> wellFormed (abortAll w).
Proof.
  intros Hw. unfold abortAll.
  constructor; cbn [spawned runningProcesses closeEmitted resolved killTimers].
  - apply (wf_numbered w Hw).
  - intros key proc H. now rewrite lookup_empty in H.
  - intros proc Hin. unfold signalled. cbn [signals].
    apply signalled_app. left. now apply (wf_timers w Hw).
  - intros proc [H|[H|H]].
    + apply (wf_bound w Hw). auto.
    + apply (wf_bound w Hw). auto.
    + unfold signalled in H. cbn [signals] in H.
      apply signalled_app in H as [H|H]; [apply (wf_bound w Hw); auto|].
      rewrite <- list_fmap_compose in H.
      apply in_map_iff in H as [q [Hq Hin]]. cbn in Hq. subst q.
      apply list_elem_of_In in Hin.
      rewrite merge_sort_Permutation in Hin.
      apply list_elem_of_fmap in Hin as [[key q] [Hq Hin]]. cbn in Hq.
      subst q. apply elem_of_map_to_list in Hin.
      destruct (wf_registered w Hw key proc Hin) as (Hsp & _).
      now apply lookup_lt_Some in Hsp.
Qed.

Lemma wellFormed_register (key : list N) (w : world) :
  wellFormed w -> wellFormed (register key w).
Proof.
  intros Hw.
  assert (Hfresh : mem (length (spawned w)) (closeEmitted w) = false
                   /\ mem (length (spawned w)) (resolved w) = false
                   /\ signalled (length (spawned w)) w = false).
  { repeat split.
    - destruct (mem _ (closeEmitted w)) eqn:E; [|reflexivity].
      pose proof (wf_bound w Hw _ (or_introl E)). lia.
    - destruct (mem _ (resolved w)) eqn:E; [|reflexivity].
      pose proof (wf_bound w Hw _ (or_intror (or_introl E))). lia.
    - destruct (signalled _ w) eqn:E; [|reflexivity].
      pose proof (wf_bound w Hw _ (or_intror (or_intror E))). lia. }
  destruct Hfresh as (F1 & F2 & F3).
  unfold register. constructor; cbn [spawned runningProcesses closeEmitted resolved killTimers].
  - intros i q k Hi. destruct (decide (i < length (spawned w))%nat) as [Hlt|Hge].
    + rewrite lookup_app_l in Hi by exact Hlt. now apply (wf_numbered w Hw i q k).
    + rewrite lookup_app_r in Hi by lia.
      destruct (i - length (spawned w))%nat as [|n] eqn:En; [|discriminate].
      cbn in Hi. injection Hi as <- _. lia.
  - intros k q Hq. destruct (decide (k = key)) as [->|Hne].
    + rewrite lookup_insert_eq in Hq. injection Hq as <-.
      repeat split; try assumption.
      rewrite lookup_app_r by lia. now rewrite Nat.sub_diag.
    + rewrite lookup_insert_ne in Hq by congruence.
      destruct (wf_registered w Hw k q Hq) as (H1 & H2 & H3 & H4).
      repeat split; try assumption.
      rewrite lookup_app_l; [exact H1 | now apply lookup_lt_Some in H1].
  - intros q Hq. now apply (wf_timers w Hw).
  - intros q Hq. rewrite length_app. cbn [length].
    pose proof (wf_bound w Hw q Hq). lia.
Qed.

Lemma not_registered_if_marked (w : world) (p : nat) :
  wellFormed w ->
  mem p (resolved w) = true \/ signalled p w = true ->
  forall key q, runningProcesses w !! key = Some q -> q <> p.
Proof.
  intros Hw Hm key q Hq ->.
  destruct (wf_registered w Hw key p Hq) as (_ & _ & H3 & H4).
  destruct Hm; congruence.
Qed.

Lemma In_mem (p : nat) (l : list nat) : mem p l = true <-> In p l.
Proof.
  unfold mem. rewrite existsb_exists. split.
  - intros [x [Hin Hx]]. apply Nat.eqb_eq in Hx. now subst.
  - intros H. exists p. split; [exact H | apply Nat.eqb_refl].
Qed.

Lemma mem_snoc_or (q p : nat) (l : list nat) :
  existsb (Nat.eqb q) (l ++ [p]) = true ->
  existsb (Nat.eqb q) l = true \/ q = p.
Proof.
  rewrite existsb_app. cbn. rewrite orb_false_r, orb_true_iff, Nat.eqb_eq. tauto.
Qed.

Lemma signalled_snoc_or (q p : nat) (sg : signal) (l : list (nat * signal)) :
  existsb (fun s => Nat.eqb (fst s) q) (l ++ [(p, sg)]) = true ->
  existsb (fun s => Nat.eqb (fst s) q) l = true \/ q = p.
Proof.
  rewrite existsb_app. cbn. rewrite orb_false_r, orb_true_iff, Nat.eqb_eq.
  intuition.
Qed.

Lemma signalled_snoc_mono (q p : nat) (sg : signal) (l : list (nat * signal)) :
  existsb (fun s => Nat.eqb (fst s) q) l = true ->
  existsb (fun s => Nat.eqb (fst s) q) (l ++ [(p, sg)]) = true.
Proof. rewrite existsb_app. intros Hq. now rewrite Hq. Qed.

Lemma wellFormed_step (w : world) (e : event) :
  wellFormed w -> wellFormed (step w e).
Proof.
  intros Hw. destruct e as [key|p|p|p|p|key|]; cbn [step];
    [| | | | |now apply wellFormed_abort|now apply wellFormed_abortAll].
  - unfold startCommand. now apply wellFormed_register, wellFormed_abort.
  - destruct (keyOf p w) as [key|] eqn:Ek; [|exact Hw].
    pose proof (keyOf_spawned p key w Hw Ek) as Hsp.
    pose proof (lookup_lt_Some _ _ _ Hsp) as Hlt.
    destruct (mem p (resolved w)) eqn:Er.
    + apply (wellFormed_shrink p w); auto.
      * intros k q Hq. split; [exact Hq|].
        apply (not_registered_if_marked w p Hw (or_introl Er) k q Hq).
      * intros q. apply mem_snoc_or.
    + apply (wellFormed_shrink p w); auto.
      * intros k q Hq. apply lookup_delete_other in Hq as [Hq Hne].
        split; [exact Hq|].
        destruct (wf_registered w Hw k q Hq) as (Hsq & _).
        now apply (other_key_other_child w p q key k).
      * intros q. apply mem_snoc_or.
      * intros q. apply mem_snoc_or.
  - destruct (keyOf p w) as [key|] eqn:Ek; [|exact Hw].
    pose proof (keyOf_spawned p key w Hw Ek) as Hsp.
    pose proof (lookup_lt_Some _ _ _ Hsp) as Hlt.
    destruct (mem p (resolved w)) eqn:Er; [exact Hw|].
    apply (wellFormed_shrink p w); auto.
    + intros k q Hq. apply lookup_delete_other in Hq as [Hq Hne].
      split; [exact Hq|].
      destruct (wf_registered w Hw k q Hq) as (Hsq & _).
      now apply (other_key_other_child w p q key k).
    + intros q. apply mem_snoc_or.
  - destruct (keyOf p w) as [key|] eqn:Ek; [|exact Hw].
    pose proof (keyOf_spawned p key w Hw Ek) as Hsp.
    pose proof (lookup_lt_Some _ _ _ Hsp) as Hlt.
    destruct (mem p (resolved w) || mem p (closeEmitted w)) eqn:Er; [exact Hw|].
    apply (wellFormed_shrink p w); auto.
    + intros k q Hq. apply lookup_delete_other in Hq as [Hq Hne].
      split; [exact Hq|].
      destruct (wf_registered w Hw k q Hq) as (Hsq & _).
      now apply (other_key_other_child w p q key k).
    + intros q. apply mem_snoc_or.
    + intros q. apply signalled_snoc_or.
    + intros q. apply signalled_snoc_mono.
  - destruct (mem p (killTimers w)) eqn:Et; [|exact Hw].
    apply In_mem in Et.
    pose proof (wf_timers w Hw p Et) as Hs.
    pose proof (wf_bound w Hw p (or_intror (or_intror Hs))) as Hlt.
    apply (wellFormed_shrink p w); auto.
    + intros k q Hq. split; [exact Hq|].
      apply (not_registered_if_marked w p Hw (or_intror Hs) k q Hq).
    + intros q. apply signalled_snoc_or.
    + intros q. apply signalled_snoc_mono.
    + intros q Hq. apply filter_In in Hq as [Hq _]. now left.
Qed.

Lemma wellFormed_initial : wellFormed initial.
Proof.
  constructor; cbn.
  - intros i q k H. discriminate.
  - intros k q H. now rewrite lookup_empty in H.
  - intros q [].
  - intros q [H|[H|H]]; discriminate.
Qed.

Lemma wellFormed_run (events : list event) : wellFormed (run events).
Proof.
  unfold run. generalize wellFormed_initial. generalize initial.
  induction events as [|e events IH]; intros w Hw; [exact Hw|].
  cbn [fold_left]. apply IH. now apply wellFormed_step.
Qed.

(** X10. Whatever the bot starts, aborts for one session or aborts for
    all, and however children close, fail or time out and kill timers fire,
    the process table never names a closed or signalled child: a session
    that [isRunning] reports as running has a child that was spawned for
    it, whose ['close'] event has not been emitted and that the executor
    never sent a signal. *)
Theorem running_session_has_live_child (events : list event) (key : list N) :
  isRunning key (run events) = true ->
  exists proc,
    runningProcesses (run events) !! key = Some proc
    /\ In proc (inFlight key (run events))
    /\ mem proc (closeEmitted (run events)) = false
    /\ signalled proc (run events) = false.
Proof.
  unfold isRunning. intros H. apply bool_decide_eq_true_1 in H as [p Hp].
  pose proof (wellFormed_run events) as Hw.
  destruct (wf_registered _ Hw key p Hp) as (H1 & H2 & H3 & H4).
  exists p. repeat split; try assumption.
  unfold inFlight. apply in_map_iff. exists (p, key). split; [reflexivity|].
  apply filter_In. split.
  - apply list_elem_of_In. eapply list_elem_of_lookup_2. exact H1.
  - cbn [fst snd]. rewrite H2, H4. cbn. now rewrite bool_decide_eq_true_2.
Qed.

Lemma running_session_has_live_child_witness :
  exists proc,
    runningProcesses
      (run [Start (lit "7:default"); Abort (lit "7:default");
            Start (lit "7:default"); Start (lit "8:default"); AbortAll;
            ProcClose 1; Start (lit "7:default")])
      !! lit "7:default" = Some proc.
Proof.
  destruct (running_session_has_live_child
              [Start (lit "7:default"); Abort (lit "7:default");
               Start (lit "7:default"); Start (lit "8:default"); AbortAll;
               ProcClose 1; Start (lit "7:default")]
              (lit "7:default")) as [proc [H _]].
  - vm_compute. reflexivity.
  - exists proc. exact H.
Defined.

End ExecutorMoreFacts.

(** ** Safe sending and the notifier *)

Section SafeSenderFacts.
Import SafeSender Notifier.

Lemma sliceFrom_tail_le {A} (n : Z) (x : list A) :
  (n < 0)%Z -> (Z.of_nat (length (sliceFrom n x)) <= - n)%Z.
Proof.
  intros H. replace n with (- - n)%Z at 1 by lia.
  rewrite sliceFrom_tail_length by lia. lia.
Qed.

(** X11. [sendSafe] never hands Telegram a message longer than 3549 units,
    well inside the limit of 4096: the first reply is the text itself when
    it has at most 3500 units and otherwise a notice with its last 3500;
    the retry has at most 2000.  A text over 10000 units, a forced file, or
    two failed replies end in one upload of the complete text. *)
Theorem sendSafe_stays_in_limit (succeeds : apiCall -> bool)
    (text : jsstring) (asFile : bool) (filename : option jsstring) :
  let calls := sendSafe succeeds text asFile filename in
  Forall (fun c => match c with
                   | Reply t _ _ => (length t <= 3549)%nat
                   | Edit _ => False
                   | Document content _ => content = text
                   end) calls
  /\ (asFile = false -> (length text <= 3500)%nat ->
      exists rest, calls = Reply text true true :: rest)
  /\ (exists c, last calls = Some c
                /\ (succeeds c = true \/ exists f, c = Document text f)).
Proof.
  cbn zeta. unfold sendSafe, MAX_MESSAGE_LENGTH.
  change (- (3500))%Z with (-3500)%Z.
  set (file := Document text (orElse filename (lit "output.txt"))).
  destruct (asFile || (10000 <? Z.of_nat (length text))%Z) eqn:Ebig.
  - repeat split.
    + repeat constructor.
    + intros -> Hlen. cbn [orb] in Ebig. apply Z.ltb_lt in Ebig. lia.
    + exists file. split; [reflexivity|]. right. now eexists.
  - apply orb_false_iff in Ebig as [-> Ebig]. apply Z.ltb_ge in Ebig.
    set (finalText := if (3500 <? Z.of_nat (length text))%Z
                      then truncatedNotice ++ sliceFrom (-3500) text else text).
    assert (Hfinal : (length finalText <= 3549)%nat).
    { subst finalText. destruct (Z.ltb_spec 3500 (Z.of_nat (length text))).
      - rewrite length_app.
        pose proof (sliceFrom_tail_le (-3500) text ltac:(lia)).
        change (length truncatedNotice) with 49%nat. lia.
      - lia. }
    assert (Hsecond : (length (sliceFrom (-2000) finalText) <= 3549)%nat).
    { pose proof (sliceFrom_tail_le (-2000) finalText ltac:(lia)). lia. }
    repeat split.
    + destruct (succeeds (Reply finalText true true));
        [|destruct (succeeds (Reply (sliceFrom (-2000) finalText) false false))];
        repeat apply List.Forall_cons; try apply List.Forall_nil;
        try assumption; reflexivity.
    + intros _ Hlen. subst finalText.
      destruct (Z.ltb_spec 3500 (Z.of_nat (length text))); [lia|].
      destruct (succeeds (Reply text true true)); [|destruct (succeeds _)];
        eexists; reflexivity.
    + destruct (succeeds (Reply finalText true true)) eqn:E1.
      { exists (Reply finalText true true). split; [reflexivity | now left]. }
      destruct (succeeds (Reply (sliceFrom (-2000) finalText) false false)) eqn:E2.
      { eexists. split; [reflexivity | now left]. }
      exists file. split; [reflexivity|]. right. now eexists.
Qed.

Lemma sendSafe_stays_in_limit_witness :
  exists rest,
    sendSafe (fun _ => true) (lit "done") false None
    = Reply (lit "done") true true :: rest.
Proof.
  refine (proj1 (proj2 (sendSafe_stays_in_limit (fun _ => true) (lit "done")
            false None)) eq_refl _).
  vm_compute. lia.
Defined.

(** X12. [editSafe] edits with at most 3515 units, falls back to one new
    message of at most 2000 units when the edit fails, and returns [true]
    exactly when the edit itself went through. *)
Theorem editSafe_stays_in_limit (succeeds : apiCall -> bool) (text : jsstring) :
  let r := editSafe succeeds text in
  Forall (fun c => match messageText c with
                   | Some t => (length t <= 3515)%nat
                   | None => False
                   end) (fst r)
  /\ (exists t, head (fst r) = Some (Edit t)
               /\ (snd r = succeeds (Edit t))
               /\ ((length text <= 3500)%nat -> t = text)
               /\ (snd r = false ->
                   exists t', fst r = [Edit t; Reply t' true false]
                              /\ (length t' <= 2000)%nat)).
Proof.
  cbn zeta. unfold editSafe, MAX_MESSAGE_LENGTH.
  change (- (3500))%Z with (-3500)%Z.
  set (finalText := if (3500 <? Z.of_nat (length text))%Z
                    then sliceFrom (-3500) text ++ [LF] ++ lit "...(truncated)"
                    else text).
  assert (Hfinal : (length finalText <= 3515)%nat).
  { subst finalText. destruct (Z.ltb_spec 3500 (Z.of_nat (length text))).
    - rewrite !length_app.
      pose proof (sliceFrom_tail_le (-3500) text ltac:(lia)).
      change (length (lit "...(truncated)")) with 14%nat. cbn [length]. lia.
    - lia. }
  pose proof (sliceFrom_tail_le (-2000) finalText ltac:(lia)) as Hsecond.
  destruct (succeeds (Edit finalText)) eqn:E; cbn [fst snd].
  - split; [apply List.Forall_cons; [exact Hfinal | apply List.Forall_nil]|].
    exists finalText. repeat split; try (now rewrite E); try discriminate.
    intros Hlen. subst finalText.
    now destruct (Z.ltb_spec 3500 (Z.of_nat (length text))); [lia|].
  - split; [repeat apply List.Forall_cons; try apply List.Forall_nil;
            cbn [messageText]; lia|].
    exists finalText. repeat split; try (now rewrite E).
    + intros Hlen. subst finalText.
      now destruct (Z.ltb_spec 3500 (Z.of_nat (length text))); [lia|].
    + intros _. eexists. split; [reflexivity | lia].
Qed.

Lemma editSafe_stays_in_limit_witness :
  exists t, head (fst (editSafe (fun _ => false) (lit "working"))) = Some (Edit t).
Proof.
  destruct (proj2 (editSafe_stays_in_limit (fun _ => false) (lit "working")))
    as [t [H _]].
  exists t. exact H.
Defined.

(** X13. [truncateCommand] with a bound of at least 3 (the notifier uses 50)
    never returns more than the bound: a command within the bound comes back
    unchanged, a longer one is cut to its first [maxLength - 3] units
    followed by three dots. *)
Theorem truncateCommand_bound (command : jsstring) (maxLength : Z) :
  (3 <= maxLength)%Z ->
  (Z.of_nat (length (truncateCommand command maxLength)) <= maxLength)%Z
  /\ ((Z.of_nat (length command) <= maxLength)%Z ->
      truncateCommand command maxLength = command)
  /\ ((maxLength < Z.of_nat (length command))%Z ->
      truncateCommand command maxLength
      = take (Z.to_nat (maxLength - 3)) command ++ lit "..."
      /\ Z.of_nat (length (truncateCommand command maxLength)) = maxLength).
Proof.
  intros Hm. unfold truncateCommand.
  destruct (Z.leb_spec (Z.of_nat (length command)) maxLength) as [Hle|Hgt].
  - split; [exact Hle|]. split; [reflexivity | lia].
  - assert (Hs : slice 0 (maxLength - 3) command
                 = take (Z.to_nat (maxLength - 3)) command).
    { unfold slice, clampIndex.
      destruct (Z.ltb_spec (maxLength - 3) 0); [lia|].
      cbn [Z.ltb Z.compare Z.to_nat Nat.min drop].
      rewrite Nat.sub_0_r.
      destruct (Nat.min_spec (Z.to_nat (maxLength - 3)) (length command))
        as [[_ ->]|[Hge ->]]; [reflexivity|].
      now rewrite !take_ge by lia. }
    rewrite Hs, length_app, length_take.
    change (length (lit "...")) with 3%nat.
    repeat split; lia.
Qed.

Lemma truncateCommand_bound_witness :
  (Z.of_nat (length (truncateCommand (repeat 120%N 80) 50)) <= 50)%Z.
Proof.
  exact (proj1 (truncateCommand_bound (repeat 120%N 80) 50 ltac:(lia))).
Defined.

End SafeSenderFacts.

(** ** Formatting for display *)

Section OutputHandlerFacts.
Import OutputHandler.

Lemma shortenLoop_stuck (maxLength : Z) (parts : list jsstring) :
  (2 < length parts)%nat ->
  (maxLength < Z.of_nat (length (join [SLASH] (<[1%nat := DOTS]> parts))))%Z ->
  forall fuel,
    shortenLoop maxLength fuel (<[1%nat := DOTS]> parts)
      (join [SLASH] (<[1%nat := DOTS]> parts)) = None.
Proof.
  intros Hparts Hlong fuel. induction fuel as [|fuel IH]; cbn [shortenLoop];
    rewrite length_insert;
    destruct (Nat.ltb_spec 2 (length parts)); try lia;
    destruct (Z.ltb_spec maxLength
                (Z.of_nat (length (join [SLASH] (<[1%nat := DOTS]> parts)))));
    try lia; cbn [andb]; [reflexivity|].
  rewrite list_insert_insert_eq. exact IH.
Qed.

(** X14. [shortenPath] does not return when the path, after the home
    directory is replaced by a tilde, is longer than [maxLength], has more
    than two [/]-separated parts, and is still longer than [maxLength] with
    its second part replaced by three dots: the loop replaces the same part
    again and again, and no number of turns ends it. *)
Theorem shortenPath_never_returns (env_HOME : option jsstring)
    (path : jsstring) (maxLength : Z) :
  let shortened := replaceFirst (home env_HOME) TILDE path in
  let parts := split SLASH shortened in
  (maxLength < Z.of_nat (length shortened))%Z ->
  (2 < length parts)%nat ->
  (maxLength < Z.of_nat (length (join [SLASH] (<[1%nat := DOTS]> parts))))%Z ->
  forall fuel, shortenPath env_HOME path maxLength fuel = None.
Proof.
  intros shortened parts Hlong Hparts Hstill fuel.
  unfold shortenPath. fold shortened. fold parts.
  destruct (Z.leb_spec (Z.of_nat (length shortened)) maxLength); [lia|].
  destruct fuel as [|fuel]; cbn [shortenLoop];
    destruct (Nat.ltb_spec 2 (length parts)); try lia;
    destruct (Z.ltb_spec maxLength (Z.of_nat (length shortened))); try lia;
    cbn [andb]; [reflexivity|].
  now apply shortenLoop_stuck.
Qed.

Lemma shortenPath_never_returns_witness :
  shortenPath (Some (lit "/home/me"))
    (lit "/home/me/work/" ++ repeat 97 50) 40 1000 = None.
Proof.
  apply (shortenPath_never_returns (Some (lit "/home/me"))
           (lit "/home/me/work/" ++ repeat 97 50) 40);
    vm_compute; reflexivity.
Defined.

(** X15. In every other case [shortenPath] returns, and what it returns is
    fixed: the tilde form of the path, unchanged, when that fits in
    [maxLength] or has at most two parts; and when the tilde form is too
    long, has more than two parts and fits once its second part is replaced
    by three dots, exactly that replaced form, after one turn of the
    loop. *)
Theorem shortenPath_returns (env_HOME : option jsstring)
    (path : jsstring) (maxLength : Z) (fuel : nat) :
  let shortened := replaceFirst (home env_HOME) TILDE path in
  let parts := split SLASH shortened in
  ((Z.of_nat (length shortened) <= maxLength)%Z \/ (length parts <= 2)%nat ->
   shortenPath env_HOME path maxLength fuel = Some shortened)
  /\ ((maxLength < Z.of_nat (length shortened))%Z ->
      (2 < length parts)%nat ->
      (Z.of_nat (length (join [SLASH] (<[1%nat := DOTS]> parts)))
       <= maxLength)%Z ->
      shortenPath env_HOME path maxLength (S fuel)
      = Some (join [SLASH] (<[1%nat := DOTS]> parts))).
Proof.
  intros shortened parts.
  unfold shortenPath. fold shortened. fold parts. split.
  - intros H.
    destruct (Z.leb_spec (Z.of_nat (length shortened)) maxLength) as [Hfit|Hlong];
      [reflexivity|].
    destruct H as [H|H]; [lia|].
    destruct fuel; cbn [shortenLoop];
      destruct (Nat.ltb_spec 2 (length parts)); try lia; reflexivity.
  - intros Hlong Hparts Hfits.
    destruct (Z.leb_spec (Z.of_nat (length shortened)) maxLength); [lia|].
    cbn [shortenLoop].
    destruct (Nat.ltb_spec 2 (length parts)); [|lia].
    destruct (Z.ltb_spec maxLength (Z.of_nat (length shortened))); [|lia].
    cbn [andb].
    destruct fuel as [|fuel]; cbn [shortenLoop]; rewrite length_insert;
      destruct (Nat.ltb_spec 2 (length parts)); try lia;
      destruct (Z.ltb_spec maxLength
                  (Z.of_nat (length (join [SLASH] (<[1%nat := DOTS]> parts)))));
      try lia; reflexivity.
Qed.

Lemma shortenPath_returns_witness :
  shortenPath (Some (lit "/home/me")) (lit "/home/me/projects/app") 40 0
  = Some (lit "~/projects/app")
  /\ shortenPath (Some (lit "/home/me"))
       (lit "/home/me/" ++ repeat 97 50 ++ lit "/src") 40 1
     = Some (lit "~/.../src").
Proof.
  split.
  - apply (proj1 (shortenPath_returns (Some (lit "/home/me"))
                    (lit "/home/me/projects/app") 40 0)).
    left. vm_compute. discriminate.
  - apply (proj2 (shortenPath_returns (Some (lit "/home/me"))
                    (lit "/home/me/" ++ repeat 97 50 ++ lit "/src") 40 0)).
    + vm_compute. reflexivity.
    + vm_compute. lia.
    + vm_compute. discriminate.
Defined.

Lemma replaceFirst_absent (pat rep s : jsstring) :
  includes s pat = false -> replaceFirst pat rep s = s.
Proof.
  induction s as [|c r IH]; cbn [includes replaceFirst]; intros H;
    apply orb_false_iff in H as [H1 H2]; rewrite H1; [reflexivity|].
  now rewrite IH.
Qed.

Lemma startsWith_prefix (a b : jsstring) : startsWith (a ++ b) a = true.
Proof. apply startsWith_spec. now exists b. Qed.

Lemma replaceFirst_first (pat rep pre rest : jsstring) :
  (forall i, (i < length pre)%nat ->
             startsWith (drop i (pre ++ pat ++ rest)) pat = false) ->
  replaceFirst pat rep (pre ++ pat ++ rest) = pre ++ rep ++ rest.
Proof.
  induction pre as [|c pre IH]; intros H.
  - cbn [app]. destruct (pat ++ rest) as [|x r] eqn:E.
    + apply app_eq_nil in E as [-> ->]. reflexivity.
    + cbn [replaceFirst]. rewrite <- E, startsWith_prefix.
      now rewrite drop_app_length.
  - pose proof (H 0%nat ltac:(cbn [length]; lia)) as H0.
    cbn [app drop] in H0. cbn [app replaceFirst]. rewrite H0.
    f_equal. apply IH.
    intros i Hi. apply (H (S i)). cbn [length]. lia.
Qed.

(** X16. [formatSessionInfo] prints the name, the marker of the active
    session, a newline, three blanks and the working directory, in which
    the first occurrence of the home directory, wherever it stands, is
    replaced by a tilde; a directory in which the home directory does not
    occur is printed as it is; and with [HOME] unset or empty every
    directory gets a tilde put in front of it. *)
Theorem displayCwd_spec (env_HOME : option jsstring)
    (name pre rest cwd : jsstring) (isActive : bool) :
  ((forall i, (i < length pre)%nat ->
      startsWith (drop i (pre ++ home env_HOME ++ rest)) (home env_HOME)
      = false) ->
   formatSessionInfo env_HOME name (pre ++ home env_HOME ++ rest) isActive
   = name ++ (if isActive then lit " [active]" else [])
     ++ [LF] ++ lit "   " ++ pre ++ TILDE ++ rest)
  /\ (includes cwd (home env_HOME) = false ->
      formatSessionInfo env_HOME name cwd isActive
      = name ++ (if isActive then lit " [active]" else [])
        ++ [LF] ++ lit "   " ++ cwd)
  /\ (home env_HOME = [] ->
      formatSessionInfo env_HOME name cwd isActive
      = name ++ (if isActive then lit " [active]" else [])
        ++ [LF] ++ lit "   " ++ TILDE ++ cwd).
Proof.
  unfold formatSessionInfo. repeat split.
  - intros H. now rewrite (replaceFirst_first _ _ _ _ H).
  - intros H. now rewrite (replaceFirst_absent _ _ _ H).
  - intros Hh. rewrite Hh. now destruct cwd.
Qed.

Lemma displayCwd_spec_witness :
  formatSessionInfo None (lit "build") (lit "/tmp") true
  = lit "build [active]" ++ [LF] ++ lit "   ~/tmp"
  /\ formatSessionInfo (Some (lit "/home/me")) (lit "build") (lit "/tmp") false
     = lit "build" ++ [LF] ++ lit "   /tmp"
  /\ formatSessionInfo (Some (lit "/home/me")) (lit "build")
       (lit "/home/me/src") false
     = lit "build" ++ [LF] ++ lit "   ~/src".
Proof.
  split; [|split].
  - exact (proj2 (proj2 (displayCwd_spec None (lit "build") [] []
                           (lit "/tmp") true)) eq_refl).
  - exact (proj1 (proj2 (displayCwd_spec (Some (lit "/home/me")) (lit "build")
                           [] [] (lit "/tmp") false)) eq_refl).
  - apply (proj1 (displayCwd_spec (Some (lit "/home/me")) (lit "build")
                    [] (lit "/src") [] false)).
    intros i Hi. cbn [length] in Hi. lia.
Defined.

End OutputHandlerFacts.

(** ** Cleaning a captured screen *)

Section CommandsFacts.
Import Commands.

Lemma split_join (sep : N) (lines : list jsstring) :
  Forall (fun l => ~ In sep l) lines -> lines <> [] ->
  split sep (join [sep] lines) = lines.
Proof.
  induction lines as [|x r IH]; intros Hno Hne; [congruence|].
  inversion Hno as [|? ? Hx Hr]; subst.
  destruct r as [|y r]; [now apply split_line|].
  change (join [sep] (x :: y :: r)) with (x ++ [sep] ++ join [sep] (y :: r)).
  rewrite split_app, (split_line _ _ Hx), IH by (auto; discriminate).
  reflexivity.
Qed.

Lemma shiftBlank_head (lines : list jsstring) :
  shiftBlank lines = []
  \/ exists h t, shiftBlank lines = h :: t /\ isBlank h = false.
Proof.
  induction lines as [|l r IH]; [now left|]. cbn [shiftBlank].
  destruct (isBlank l) eqn:E; [exact IH|]. right. eauto.
Qed.

Lemma shiftBlank_fixed (h : jsstring) (t : list jsstring) :
  isBlank h = false -> shiftBlank (h :: t) = h :: t.
Proof. intros H. cbn [shiftBlank]. now rewrite H. Qed.

Lemma shiftBlank_idem (lines : list jsstring) :
  shiftBlank (shiftBlank lines) = shiftBlank lines.
Proof.
  destruct (shiftBlank_head lines) as [->|(h & t & -> & H)]; [reflexivity|].
  now apply shiftBlank_fixed.
Qed.

Lemma Forall_shiftBlank (P : jsstring -> Prop) (lines : list jsstring) :
  Forall P lines -> Forall P (shiftBlank lines).
Proof.
  induction 1 as [|l r Hl Hr IH]; [constructor|]. cbn [shiftBlank].
  destruct (isBlank l); [exact IH | now constructor].
Qed.

Lemma Forall_popBlank (P : jsstring -> Prop) (lines : list jsstring) :
  Forall P lines -> Forall P (popBlank lines).
Proof.
  intros H. unfold popBlank.
  apply List.Forall_rev, Forall_shiftBlank, List.Forall_rev, H.
Qed.

Lemma shiftBlank_keeps_last (a : list jsstring) (h : jsstring) :
  isBlank h = false -> exists a', shiftBlank (a ++ [h]) = a' ++ [h].
Proof.
  intros H. induction a as [|x a IH]; cbn [app shiftBlank].
  - rewrite H. now exists [].
  - destruct (isBlank x); [exact IH|]. now exists (x :: a).
Qed.

Lemma popBlank_idem (lines : list jsstring) :
  popBlank (popBlank lines) = popBlank lines.
Proof. unfold popBlank. now rewrite rev_involutive, shiftBlank_idem. Qed.

Lemma popBlank_keeps_head (h : jsstring) (t : list jsstring) :
  isBlank h = false -> exists t', popBlank (h :: t) = h :: t'.
Proof.
  intros H. unfold popBlank. cbn [rev].
  destruct (shiftBlank_keeps_last (rev t) h H) as [a' ->].
  rewrite rev_app_distr. cbn. eauto.
Qed.

Lemma popBlank_last (lines : list jsstring) :
  popBlank lines = []
  \/ exists front l, popBlank lines = front ++ [l] /\ isBlank l = false.
Proof.
  unfold popBlank.
  destruct (shiftBlank_head (rev lines)) as [->|(h & t & -> & H)];
    [now left|].
  right. exists (rev t), h. now split.
Qed.

Lemma cleanedLines_shape (content : jsstring) :
  cleanedLines content = []
  \/ exists h t, cleanedLines content = h :: t /\ isBlank h = false.
Proof.
  unfold cleanedLines.
  destruct (shiftBlank_head
              (List.filter (fun l => negb (isChrome l)) (split LF content)))
    as [->|(h & t & -> & H)]; [now left|].
  destruct (popBlank_keeps_head h t H) as [t' ->]. right. eauto.
Qed.

Lemma cleanedLines_lines (content : jsstring) :
  Forall (fun l => In l (split LF content) /\ isChrome l = false
                   /\ ~ In LF l) (cleanedLines content).
Proof.
  unfold cleanedLines. apply Forall_popBlank, Forall_shiftBlank.
  apply List.Forall_forall. intros l Hl.
  apply filter_In in Hl as [Hin Hc]. apply negb_true_iff in Hc.
  repeat split; [exact Hin | exact Hc|].
  pose proof (split_no_sep LF content) as Hs.
  rewrite List.Forall_forall in Hs. now apply Hs.
Qed.

(** X17. [cleanTerminalOutput] is idempotent: cleaning a cleaned screen
    changes nothing.  Unless the result is empty, its lines are lines of the
    input, none of them is a line the function skips (separator, empty
    prompt, permission, context, keyboard or interrupt hint, input line),
    and neither the first nor the last is blank. *)
Theorem cleanTerminalOutput_spec (content : jsstring) :
  cleanTerminalOutput (cleanTerminalOutput content)
  = cleanTerminalOutput content
  /\ (cleanTerminalOutput content <> [] ->
      let lines := split LF (cleanTerminalOutput content) in
      Forall (fun l => In l (split LF content) /\ isChrome l = false) lines
      /\ (exists first rest, lines = first :: rest /\ isBlank first = false)
      /\ (exists front last, lines = front ++ [last] /\ isBlank last = false)).
Proof.
  unfold cleanTerminalOutput.
  pose proof (cleanedLines_lines content) as Hall.
  destruct (cleanedLines_shape content) as [E|(h & t & E & Hh)].
  - rewrite E. split; [reflexivity | now intros H].
  - assert (Hne : cleanedLines content <> []) by now rewrite E.
    assert (Hsplit : split LF (join [LF] (cleanedLines content))
                     = cleanedLines content).
    { apply split_join; [|exact Hne].
      eapply Forall_impl; [exact Hall|]. now intros l (_ & _ & H). }
    split.
    + f_equal. unfold cleanedLines at 1. rewrite Hsplit.
      assert (Hf : List.filter (fun l => negb (isChrome l)) (cleanedLines content)
                   = cleanedLines content).
      { apply forallb_filter_id, forallb_forall. intros l Hl.
        rewrite List.Forall_forall in Hall.
        destruct (Hall l Hl) as (_ & Hc & _). now rewrite Hc. }
      rewrite Hf, E, (shiftBlank_fixed h t Hh), <- E.
      unfold cleanedLines. apply popBlank_idem.
    + intros _. cbn zeta. rewrite Hsplit. repeat split.
      * eapply Forall_impl; [exact Hall|]. now intros l (H1 & H2 & _).
      * exists h, t. now split.
      * unfold cleanedLines in *.
        destruct (popBlank_last
                    (shiftBlank (List.filter (fun l => negb (isChrome l))
                                   (split LF content))))
          as [H|(front & l & H & Hl)]; [congruence|].
        exists front, l. now split.
Qed.

Lemma cleanTerminalOutput_spec_witness :
  split LF (cleanTerminalOutput
              (lit "> " ++ [LF] ++ lit "All tests pass" ++ [LF]
               ++ lit "  esc to interrupt" ++ [LF]))
  = [lit "All tests pass"].
Proof.
  destruct (proj2 (cleanTerminalOutput_spec
              (lit "> " ++ [LF] ++ lit "All tests pass" ++ [LF]
               ++ lit "  esc to interrupt" ++ [LF])))
    as [_ [(first & rest & H & _) _]].
  - vm_compute. discriminate.
  - cbn zeta in H. rewrite H. revert H. vm_compute. congruence.
Defined.

End CommandsFacts.

(** ** Output of a command as chat messages *)

Section FormatOutputFacts.
Import FormatOutput.

Lemma stripFrom_length (k : nat) (s : jsstring) :
  (length (stripFrom k s) <= length s)%nat.
Proof.
  revert k. induction s as [|c r IH]; intros k; cbn [stripFrom length]; [lia|].
  destruct k as [|k].
  - destruct (c =? ESC).
    + destruct (escapeLength r) as [n|].
      * pose proof (IH n). lia.
      * cbn [length]. pose proof (IH 0%nat). lia.
    + cbn [length]. pose proof (IH 0%nat). lia.
  - pose proof (IH k). lia.
Qed.

Lemma stripFrom_plain (a s : jsstring) :
  ~ In ESC a -> stripFrom 0 (a ++ s) = a ++ stripFrom 0 s.
Proof.
  induction a as [|c a IH]; intros H; [reflexivity|].
  cbn [app stripFrom].
  destruct (N.eqb_spec c ESC) as [->|Hne].
  - exfalso. apply H. now left.
  - rewrite IH; [reflexivity|]. intros Hin. apply H. now right.
Qed.

Lemma stripFrom_skip (x s : jsstring) :
  stripFrom (length x) (x ++ s) = stripFrom 0 s.
Proof.
  induction x as [|c x IH]; [reflexivity|]. exact IH.
Qed.

Lemma spanLen_app (p : N -> bool) (x y : jsstring) :
  forallb p x = true ->
  match y with c :: _ => p c = false | [] => True end ->
  spanLen p (x ++ y) = length x.
Proof.
  intros Hx Hy. induction x as [|c x IH]; cbn [app spanLen length].
  - destruct y as [|c r]; [reflexivity|]. cbn [spanLen]. now rewrite Hy.
  - cbn [forallb] in Hx. apply andb_true_iff in Hx as [Hc Hx].
    now rewrite Hc, IH.
Qed.

Lemma class_disjoint (c : N) :
  (isInter c = true -> isParam c = false)
  /\ (isFinal c = true -> isParam c = false /\ isInter c = false).
Proof.
  unfold isInter, isParam, isFinal.
  destruct (N.leb_spec 48 c), (N.leb_spec c 63), (N.leb_spec 32 c),
    (N.leb_spec c 47), (N.leb_spec 64 c), (N.leb_spec c 126);
    cbn; repeat split; try discriminate; try reflexivity; lia.
Qed.

Lemma escapeLength_csi (params inter : jsstring) (f : N) (s : jsstring) :
  forallb isParam params = true -> forallb isInter inter = true ->
  isFinal f = true ->
  escapeLength (91 :: params ++ inter ++ [f] ++ s)
  = Some (length (91 :: params ++ inter ++ [f])).
Proof.
  intros Hp Hi Hf. unfold escapeLength.
  change (isFe 91) with false. change (91 =? 91) with true. cbn iota.
  destruct (class_disjoint f) as [_ Hfd]. destruct (Hfd Hf) as [Hfp Hfi].
  assert (Hnp : spanLen isParam (params ++ inter ++ [f] ++ s) = length params).
  { apply spanLen_app; [exact Hp|].
    destruct inter as [|i inter]; cbn [app]; [exact Hfp|].
    cbn [forallb] in Hi. apply andb_true_iff in Hi as [Hi _].
    now apply (proj1 (class_disjoint i)). }
  rewrite Hnp, drop_app_length.
  assert (Hni : spanLen isInter (inter ++ [f] ++ s) = length inter).
  { apply spanLen_app; [exact Hi | exact Hfi]. }
  rewrite Hni, drop_app_length. cbn [app]. rewrite Hf.
  f_equal. cbn [length]. rewrite !length_app. cbn [length]. lia.
Qed.

Lemma spanLen_stop (p : N -> bool) (r : jsstring) (x : N) (s : jsstring) :
  p x = false -> spanLen p (r ++ x :: s) = spanLen p r.
Proof.
  intros Hx. induction r as [|c r IH]; cbn [app spanLen].
  - now rewrite Hx.
  - now rewrite IH.
Qed.

Lemma spanLen_le (p : N -> bool) (r : jsstring) :
  (spanLen p r <= length r)%nat.
Proof.
  induction r as [|c r IH]; cbn [spanLen length]; [lia|].
  destruct (p c); lia.
Qed.

Lemma spanLen_take (p : N -> bool) (r : jsstring) :
  forallb p (take (spanLen p r) r) = true.
Proof.
  induction r as [|c r IH]; [reflexivity|]. cbn [spanLen].
  destruct (p c) eqn:E; [|reflexivity].
  cbn [take forallb]. now rewrite E, IH.
Qed.

(** An ESC ends every attempt to match, as the end of the text does. *)
Lemma escapeLength_before_ESC (r s : jsstring) :
  escapeLength (r ++ ESC :: s) = escapeLength r.
Proof.
  destruct r as [|c r]; [reflexivity|].
  cbn [app]. unfold escapeLength.
  destruct (isFe c); [reflexivity|].
  destruct (c =? 91); [|reflexivity].
  rewrite (spanLen_stop isParam r ESC s eq_refl).
  pose proof (spanLen_le isParam r) as Hp.
  rewrite drop_app_le by exact Hp.
  rewrite (spanLen_stop isInter _ ESC s eq_refl).
  pose proof (spanLen_le isInter (drop (spanLen isParam r) r)) as Hi.
  rewrite drop_app_le by exact Hi.
  now destruct (drop _ (drop _ r)).
Qed.

Lemma escapeLength_le (r : jsstring) (n : nat) :
  escapeLength r = Some n -> (n <= length r)%nat.
Proof.
  destruct r as [|c r]; [discriminate|]. unfold escapeLength.
  destruct (isFe c); [intros [= <-]; cbn [length]; lia|].
  destruct (c =? 91); [|discriminate].
  destruct (drop _ (drop _ r)) as [|f t] eqn:E; [discriminate|].
  destruct (isFinal f); [|discriminate]. intros [= <-].
  apply (f_equal length) in E. rewrite !length_drop in E.
  cbn [length] in *. lia.
Qed.

(** The scan goes on at an ESC as if the text began there. *)
Lemma stripFrom_at_ESC (a : jsstring) (k : nat) (s : jsstring) :
  (k <= length a)%nat ->
  stripFrom k (a ++ ESC :: s) = stripFrom k a ++ stripFrom 0 (ESC :: s).
Proof.
  revert k. induction a as [|c a IH]; intros k Hk.
  - destruct k; [reflexivity | cbn [length] in Hk; lia].
  - cbn [app]. destruct k as [|k].
    + cbn [stripFrom]. destruct (c =? ESC).
      * rewrite escapeLength_before_ESC.
        destruct (escapeLength a) as [n|] eqn:E.
        -- apply IH. now apply escapeLength_le.
        -- cbn [app]. f_equal. apply IH. lia.
      * cbn [app]. f_equal. apply IH. lia.
    + cbn [stripFrom]. apply IH. cbn [length] in Hk. lia.
Qed.

Lemma stripFrom_sequence (q s : jsstring) :
  isSequence q -> stripFrom 0 (q ++ s) = stripFrom 0 s.
Proof.
  intros [(c & Hc & ->)|(params & inter & f & Hp & Hi & Hf & ->)].
  - cbn [app stripFrom]. change (ESC =? ESC) with true. cbn iota.
    unfold escapeLength. now rewrite Hc.
  - rewrite <- !app_assoc.
    change ([ESC; 91] ++ params ++ inter ++ [f] ++ s)
      with (ESC :: 91 :: params ++ inter ++ [f] ++ s).
    cbn [stripFrom]. change (ESC =? ESC) with true. cbn iota.
    rewrite (escapeLength_csi params inter f s Hp Hi Hf).
    cbn [length].
    replace (params ++ inter ++ [f] ++ s) with ((params ++ inter ++ [f]) ++ s)
      by now rewrite <- !app_assoc.
    apply stripFrom_skip.
Qed.

(** Where the scan takes units away after an ESC, a sequence stands. *)
Lemma escapeLength_sequence (r : jsstring) (n : nat) :
  escapeLength r = Some n ->
  exists q rest, isSequence q /\ ESC :: r = q ++ rest.
Proof.
  destruct r as [|c r]; [discriminate|]. unfold escapeLength.
  destruct (isFe c) eqn:Ec.
  { intros _. exists [ESC; c], r. split; [|reflexivity]. left. eauto. }
  destruct (N.eqb_spec c 91) as [->|]; [|discriminate].
  set (np := spanLen isParam r).
  set (ni := spanLen isInter (drop np r)).
  destruct (drop ni (drop np r)) as [|f t] eqn:E; [discriminate|].
  destruct (isFinal f) eqn:Ef; [|discriminate]. intros _.
  exists ([ESC; 91] ++ take np r ++ take ni (drop np r) ++ [f]), t. split.
  - right. exists (take np r), (take ni (drop np r)), f.
    repeat split; [apply spanLen_take | apply spanLen_take | exact Ef].
  - rewrite <- !app_assoc. cbn [app]. do 2 f_equal.
    rewrite <- E, take_drop. now rewrite take_drop.
Qed.

(** X18. [stripAnsi] never makes a text longer and leaves every stretch
    without an ESC as it is.  It removes every escape sequence whole,
    wherever in the text one starts: a two-unit escape as well as a control
    sequence (ESC, bracket, parameters, intermediates, final unit), also
    right after an ESC that is kept.  And an ESC at which no sequence
    starts is kept. *)
Theorem stripAnsi_spec :
  (forall s, (length (stripAnsi s) <= length s)%nat)
  /\ (forall a s, ~ In ESC a -> stripAnsi (a ++ s) = a ++ stripAnsi s)
  /\ (forall a q s,
        isSequence q -> stripAnsi (a ++ q ++ s) = stripAnsi a ++ stripAnsi s)
  /\ (forall a s,
        (forall q rest, isSequence q -> ESC :: s <> q ++ rest) ->
        stripAnsi (a ++ ESC :: s) = stripAnsi a ++ ESC :: stripAnsi s).
Proof.
  unfold stripAnsi. repeat split.
  - intros s. apply stripFrom_length.
  - intros a s. apply stripFrom_plain.
  - intros a q s Hq.
    assert (Hhead : exists q', q = ESC :: q').
    { destruct Hq as [(c & _ & ->)|(ps & it & f & _ & _ & _ & ->)]; eauto. }
    destruct Hhead as [q' ->]. cbn [app].
    rewrite stripFrom_at_ESC by lia. f_equal.
    now apply (stripFrom_sequence (ESC :: q')).
  - intros a s Hno. rewrite stripFrom_at_ESC by lia. f_equal.
    cbn [stripFrom]. change (ESC =? ESC) with true. cbn iota.
    destruct (escapeLength s) as [n|] eqn:E; [|reflexivity].
    destruct (escapeLength_sequence s n E) as (q & rest & Hq & Heq).
    now destruct (Hno q rest Hq).
Qed.

Lemma stripAnsi_spec_witness :
  stripAnsi ([ESC] ++ ([ESC; 91] ++ lit "2" ++ [] ++ lit "J") ++ lit "x")
  = [ESC] ++ lit "x".
Proof.
  apply (proj1 (proj2 (proj2 stripAnsi_spec)) [ESC]
           ([ESC; 91] ++ lit "2" ++ [] ++ lit "J") (lit "x")).
  right. exists (lit "2"), [], 74. repeat split.
Defined.

Lemma maxChunkSize_value : maxChunkSize = 4058%nat.
Proof. reflexivity. Qed.

Lemma lastIndexOf_le (c : N) (pos : nat) (s : jsstring) (i : nat) :
  lastIndexOf c pos s = Some i -> (i <= pos)%nat.
Proof.
  induction pos as [|p IH]; cbn [lastIndexOf].
  - destruct (s !! 0%nat) as [x|]; [|discriminate].
    destruct (x =? c); [|discriminate]. intros [= <-]. lia.
  - destruct (s !! S p) as [x|].
    + destruct (x =? c).
      * intros [= <-]. lia.
      * intros H. apply IH in H. lia.
    + intros H. apply IH in H. lia.
Qed.

Lemma breakPoint_range (remaining : jsstring) :
  (maxChunkSize <= 2 * breakPoint remaining)%nat
  /\ (breakPoint remaining <= maxChunkSize)%nat.
Proof.
  unfold breakPoint.
  destruct (lastIndexOf LF maxChunkSize remaining) as [i|] eqn:E; [|lia].
  apply lastIndexOf_le in E.
  destruct (Nat.ltb_spec (2 * i) maxChunkSize); lia.
Qed.

Lemma filter_trimStart (s : jsstring) :
  List.filter notWhiteSpace (trimStart s) = List.filter notWhiteSpace s.
Proof.
  induction s as [|c r IH]; [reflexivity|]. cbn [trimStart].
  destruct (isWhiteSpace c) eqn:E; [|reflexivity].
  cbn [List.filter]. unfold notWhiteSpace at 2. now rewrite E.
Qed.

Lemma trimStart_length (s : jsstring) :
  (length (trimStart s) <= length s)%nat.
Proof.
  induction s as [|c r IH]; [reflexivity|]. cbn [trimStart].
  destruct (isWhiteSpace c); cbn [length]; lia.
Qed.

Lemma chunkLoop_spec (fuel : nat) (remaining : jsstring) :
  (length remaining <= fuel)%nat ->
  Forall (fun c => (1 <= length c <= maxChunkSize)%nat)
    (chunkLoop fuel remaining)
  /\ List.filter notWhiteSpace (concat (chunkLoop fuel remaining))
     = List.filter notWhiteSpace remaining
  /\ (chunkLoop fuel remaining = [] <-> remaining = []).
Proof.
  pose proof maxChunkSize_value as Hmax.
  revert remaining. induction fuel as [|fuel IH]; intros remaining Hlen.
  - destruct remaining; [|cbn [length] in Hlen; lia].
    cbn. repeat split; constructor.
  - destruct remaining as [|c r]; [cbn; repeat split; constructor|].
    cbn [chunkLoop]. set (rem := c :: r) in *.
    destruct (Nat.leb_spec (length rem) maxChunkSize) as [Hfit|Hlong].
    + repeat split.
      * constructor; [|constructor]. subst rem. cbn [length] in *. lia.
      * cbn [concat]. now rewrite app_nil_r.
      * discriminate.
      * discriminate.
    + destruct (breakPoint_range rem) as [Hlo Hhi].
      destruct (IH (trimStart (drop (breakPoint rem) rem))) as (H1 & H2 & H3).
      { pose proof (trimStart_length (drop (breakPoint rem) rem)).
        rewrite length_drop in *. lia. }
      repeat split.
      * constructor; [|exact H1]. rewrite length_take. lia.
      * cbn [concat]. rewrite List.filter_app, H2, filter_trimStart.
        rewrite <- List.filter_app. now rewrite take_drop.
      * discriminate.
      * discriminate.
Qed.

(** Nothing is lost inside a chunk, and between two chunks only white
    space. *)
Lemma chunkLoop_gaps (fuel : nat) (remaining : jsstring) :
  (length remaining <= fuel)%nat ->
  exists gaps,
    length gaps = length (chunkLoop fuel remaining)
    /\ Forall (fun gap => forallb isWhiteSpace gap = true) gaps
    /\ remaining = concat (zip_with app (chunkLoop fuel remaining) gaps).
Proof.
  pose proof maxChunkSize_value as Hmax.
  revert remaining. induction fuel as [|fuel IH]; intros remaining Hlen.
  - destruct remaining; [|cbn [length] in Hlen; lia].
    exists []. repeat split. constructor.
  - destruct remaining as [|c r]; [exists []; repeat split; constructor|].
    cbn [chunkLoop]. set (rem := c :: r) in *.
    destruct (Nat.leb_spec (length rem) maxChunkSize) as [Hfit|Hlong].
    + exists [[]]. repeat split; [now repeat constructor|].
      cbn [zip_with concat]. now rewrite !app_nil_r.
    + destruct (breakPoint_range rem) as [Hlo Hhi].
      destruct (trimStart_split (drop (breakPoint rem) rem))
        as (ws & Hsplit & Hws & _).
      destruct (IH (trimStart (drop (breakPoint rem) rem)))
        as (gaps & Hg1 & Hg2 & Hg3).
      { pose proof (trimStart_length (drop (breakPoint rem) rem)).
        rewrite length_drop in *. lia. }
      exists (ws :: gaps). repeat split.
      * cbn [length]. now rewrite Hg1.
      * constructor; [exact Hws | exact Hg2].
      * cbn [zip_with concat]. rewrite <- Hg3, <- app_assoc, <- Hsplit.
        now rewrite take_drop.
Qed.

(** X19. The chunks [formatOutput] cuts a text into: every chunk has
    between 1 and 4058 units; the text is the chunks in order, each
    followed by a run of white space that is left out, so that every unit
    inside a chunk, white space or not, is kept and nothing but white space
    at a break is lost; and there is no chunk only for the empty text. *)
Theorem chunksOf_spec (cleaned : jsstring) :
  Forall (fun c => (1 <= length c <= 4058)%nat) (chunksOf cleaned)
  /\ (exists gaps,
        length gaps = length (chunksOf cleaned)
        /\ Forall (fun gap => forallb isWhiteSpace gap = true) gaps
        /\ cleaned = concat (zip_with app (chunksOf cleaned) gaps))
  /\ (chunksOf cleaned = [] <-> cleaned = []).
Proof.
  unfold chunksOf. rewrite <- maxChunkSize_value.
  destruct (chunkLoop_spec (length cleaned) cleaned (Nat.le_refl _))
    as (Hsize & _ & Hnil).
  split; [exact Hsize|]. split; [|exact Hnil].
  apply chunkLoop_gaps. lia.
Qed.

(** X20. [formatOutput] answers an output that is empty, or only white
    space and escape sequences, with the single message [(no output)].
    Otherwise it returns one message per chunk and at least one; each
    message is its chunk between code fences, and a lone message carries no
    counter, so it has at most 4066 units. *)
Theorem formatOutput_spec (output : jsstring) (truncated : bool) :
  (trim (stripAnsi output) = [] -> formatOutput output truncated = [noOutput])
  /\ (trim (stripAnsi output) <> [] ->
      let cleaned :=
        if truncated
        then lit "[...output truncated...]" ++ [LF; LF] ++ trim (stripAnsi output)
        else trim (stripAnsi output) in
      length (formatOutput output truncated) = length (chunksOf cleaned)
      /\ formatOutput output truncated <> []
      /\ (forall i message,
            formatOutput output truncated !! i = Some message ->
            exists prefix chunk,
              chunksOf cleaned !! i = Some chunk
              /\ message = prefix ++ FENCE ++ [LF] ++ chunk ++ [LF] ++ FENCE
              /\ (length (chunksOf cleaned) = 1%nat -> prefix = [])
              /\ (length message <= length prefix + 4066)%nat)).
Proof.
  unfold formatOutput. split.
  - intros ->. reflexivity.
  - intros Hne. destruct (trim (stripAnsi output)) as [|c r]; [congruence|].
    cbn zeta.
    set (cleaned := if truncated
                    then lit "[...output truncated...]" ++ [LF; LF] ++ c :: r
                    else c :: r).
    destruct (chunkLoop_spec (length cleaned) cleaned (Nat.le_refl _))
      as (Hsize & _ & Hnil).
    rewrite maxChunkSize_value in Hsize. fold (chunksOf cleaned) in Hsize, Hnil.
    assert (Hc : chunksOf cleaned <> []).
    { intros E. apply Hnil in E. subst cleaned. now destruct truncated. }
    rewrite length_imap. repeat split.
    + destruct (chunksOf cleaned); [congruence | discriminate].
    + intros i message Hi. rewrite list_lookup_imap in Hi.
      destruct (chunksOf cleaned !! i) as [chunk|] eqn:Ei; [|discriminate].
      cbn [fmap option_fmap option_map] in Hi. injection Hi as <-.
      unfold wrapChunk.
      set (prefix := if (1 <? length (chunksOf cleaned))%nat then _ else _).
      exists prefix, chunk. repeat split.
      * intros H1. subst prefix. now rewrite H1.
      * rewrite List.Forall_forall in Hsize.
        assert (Hin : In chunk (chunksOf cleaned)).
        { apply list_elem_of_In. eapply list_elem_of_lookup_2. exact Ei. }
        apply Hsize in Hin. rewrite !length_app.
        change (length FENCE) with 3%nat. cbn [length]. lia.
Qed.

Lemma formatOutput_spec_witness :
  formatOutput ([ESC; 91] ++ lit "0m" ++ lit "  ") false = [noOutput].
Proof.
  apply (proj1 (formatOutput_spec ([ESC; 91] ++ lit "0m" ++ lit "  ") false)).
  reflexivity.
Defined.

End FormatOutputFacts.

(** ** Which commands get the working-directory probe *)

Section CdMatchFacts.
Import Executor ExecutorMore.

Lemma forallb_rev (p : N -> bool) (l : jsstring) :
  forallb p (rev l) = forallb p l.
Proof.
  induction l as [|c l IH]; [reflexivity|].
  cbn [rev forallb]. rewrite forallb_app, IH. cbn [forallb].
  rewrite andb_true_r. apply andb_comm.
Qed.

Lemma trimStart_ws (ws s : jsstring) :
  forallb isWhiteSpace ws = true -> trimStart (ws ++ s) = trimStart s.
Proof.
  induction ws as [|c ws IH]; intros H; [reflexivity|].
  cbn [forallb] in H. apply andb_true_iff in H as [Hc H].
  cbn [app trimStart]. rewrite Hc. now apply IH.
Qed.

Lemma trimStart_all_ws (ws : jsstring) :
  forallb isWhiteSpace ws = true -> trimStart ws = [].
Proof.
  intros H. rewrite <- (app_nil_r ws). now rewrite trimStart_ws.
Qed.

Lemma trimStart_app (x w : jsstring) :
  trimStart x <> [] -> trimStart (x ++ w) = trimStart x ++ w.
Proof.
  induction x as [|c x IH]; intros H; [now cbn in H|].
  cbn [app trimStart] in *. destruct (isWhiteSpace c); [now apply IH|reflexivity].
Qed.

Lemma trimEnd_ws (s ws : jsstring) :
  forallb isWhiteSpace ws = true -> trimEnd (s ++ ws) = trimEnd s.
Proof.
  intros H. unfold trimEnd. rewrite rev_app_distr, trimStart_ws; [reflexivity|].
  now rewrite forallb_rev.
Qed.

Lemma trim_pad (w1 x w2 : jsstring) :
  forallb isWhiteSpace w1 = true -> forallb isWhiteSpace w2 = true ->
  trim (w1 ++ x ++ w2) = trim x.
Proof.
  intros H1 H2. unfold trim. rewrite trimStart_ws by exact H1.
  destruct (trimStart x) as [|c t] eqn:E.
  - destruct (trimStart_split x) as (ws & Ex & Hws & _).
    rewrite E, app_nil_r in Ex. subst ws.
    rewrite trimStart_all_ws; [reflexivity|].
    rewrite forallb_app. now rewrite Hws, H2.
  - rewrite trimStart_app by (rewrite E; discriminate).
    rewrite E. now apply trimEnd_ws.
Qed.

Lemma trim_split (s : jsstring) :
  exists pre post,
    s = pre ++ trim s ++ post
    /\ forallb isWhiteSpace pre = true /\ forallb isWhiteSpace post = true
    /\ match trim s with
       | c :: _ => isWhiteSpace c = false
       | [] => True
       end.
Proof.
  destruct (trimStart_split s) as (pre & Es & Hpre & Hhead).
  destruct (trimStart_split (rev (trimStart s))) as (ws & Er & Hws & _).
  exists pre, (rev ws). unfold trim, trimEnd.
  assert (Et : trimStart s = rev (trimStart (rev (trimStart s))) ++ rev ws).
  { rewrite <- rev_app_distr, <- Er. now rewrite rev_involutive. }
  repeat split.
  - now rewrite <- Et.
  - exact Hpre.
  - now rewrite forallb_rev.
  - destruct (rev (trimStart (rev (trimStart s)))) as [|c t] eqn:E; [exact I|].
    rewrite Et in Hhead. exact Hhead.
Qed.

Lemma cdMatch_unfold (command : jsstring) :
  cdMatch command
  = match trimStart command with
    | c0 :: c1 :: w :: r =>
        (c0 =? 99) && (c1 =? 100) && isWhiteSpace w
        && match trim (w :: r) with
           | [] => existsb (fun c => negb (isLineTerminator c)) r
           | core => forallb (fun c => negb (isLineTerminator c)) core
           end
    | _ => false
    end.
Proof.
  unfold cdMatch.
  destruct (trimStart command) as [|c0 [|c1 [|w r]]]; [reflexivity| | |];
    (destruct c0 as [|p]; [reflexivity|];
     do 7 (destruct p as [p|p|]; try reflexivity));
    (destruct c1 as [|p]; [reflexivity|];
     do 7 (destruct p as [p|p|]; try reflexivity)).
Qed.

(** X21. The probe [&& pwd] is appended exactly to the commands the pattern
    [^\s*cd\s+(.+?)\s*$] matches: optional white space, [cd], at least one
    white-space unit, a non-empty argument without a line terminator, and
    nothing but white space after it.  So a bare [cd], a word that merely
    starts with [cd], and a command whose argument spans two lines get no
    probe. *)
Theorem cdMatch_iff (command : jsstring) :
  cdMatch command = true
  <-> exists lead gap arg tail,
        command = lead ++ lit "cd" ++ gap ++ arg ++ tail
        /\ forallb isWhiteSpace lead = true
        /\ gap <> [] /\ forallb isWhiteSpace gap = true
        /\ arg <> [] /\ forallb notLineTerminator arg = true
        /\ forallb isWhiteSpace tail = true.
Proof.
  split.
  - rewrite cdMatch_unfold. intros H.
    destruct (trimStart_split command) as (lead & Ec & Hlead & _).
    destruct (trimStart command) as [|c0 [|c1 [|w r]]] eqn:Et; try discriminate.
    apply andb_true_iff in H as [H Hcore].
    apply andb_true_iff in H as [H Hw].
    apply andb_true_iff in H as [H0 H1].
    apply N.eqb_eq in H0, H1. subst c0 c1.
    pose proof Hcore as H. clear Hcore.
    destruct (trim_split (w :: r)) as (pre & post & Es & Hpre & Hpost & Hh).
    destruct (trim (w :: r)) as [|k core] eqn:Ek.
    + apply existsb_exists in H as (a & Ha & Hnl).
      apply in_split in Ha as (r1 & r2 & ->).
      assert (Hall : forallb isWhiteSpace (w :: r1 ++ a :: r2) = true).
      { rewrite Es, forallb_app. cbn [app]. now rewrite Hpre, Hpost. }
      cbn [forallb] in Hall. apply andb_true_iff in Hall as [_ Hall].
      rewrite forallb_app in Hall. apply andb_true_iff in Hall as [Hr1 Hr2].
      cbn [forallb] in Hr2. apply andb_true_iff in Hr2 as [_ Hr2].
      exists lead, (w :: r1), [a], r2.
      split; [exact Ec|]. split; [exact Hlead|]. split; [discriminate|].
      split; [cbn [forallb]; now rewrite Hw, Hr1|]. split; [discriminate|].
      split; [|exact Hr2].
      cbn [forallb]. unfold notLineTerminator. now rewrite Hnl.
    + destruct pre as [|p pre].
      { cbn [app] in Es. injection Es as -> _. congruence. }
      exists lead, (p :: pre), (k :: core), post.
      split; [change (lit "cd" ++ (p :: pre) ++ (k :: core) ++ post)
                with (99 :: 100 :: (p :: pre) ++ (k :: core) ++ post);
              now rewrite <- Es|].
      split; [exact Hlead|]. split; [discriminate|].
      split; [exact Hpre|]. split; [discriminate|].
      split; [exact H | exact Hpost].
  - intros (lead & gap & arg & tail & -> & Hlead & Hgap & Hgw & Harg & Hnl & Htail).
    rewrite cdMatch_unfold, trimStart_ws by exact Hlead.
    destruct gap as [|w gap]; [congruence|].
    cbn [forallb] in Hgw. apply andb_true_iff in Hgw as [Hw Hgw].
    change (lit "cd" ++ (w :: gap) ++ arg ++ tail)
      with (99 :: 100 :: w :: gap ++ arg ++ tail).
    cbn [trimStart]. change (isWhiteSpace 99) with false. cbn iota.
    rewrite Hw. change (99 =? 99) with true. change (100 =? 100) with true.
    cbn [andb].
    assert (Htrim : trim (w :: gap ++ arg ++ tail) = trim arg).
    { change (w :: gap ++ arg ++ tail) with ((w :: gap) ++ arg ++ tail).
      apply trim_pad; [|exact Htail]. cbn [forallb]. now rewrite Hw, Hgw. }
    rewrite Htrim.
    destruct (trim arg) as [|k core] eqn:Ek.
    + destruct arg as [|a arg]; [congruence|].
      cbn [forallb] in Hnl. apply andb_true_iff in Hnl as [Ha _].
      rewrite !existsb_app. cbn [existsb].
      unfold notLineTerminator in Ha. rewrite Ha.
      now rewrite orb_true_r.
    + destruct (trim_split arg) as (pre & post & Ea & _).
      rewrite Ek in Ea. rewrite Ea in Hnl.
      rewrite !forallb_app in Hnl.
      apply andb_true_iff in Hnl as [_ Hnl].
      apply andb_true_iff in Hnl as [Hnl _]. exact Hnl.
Qed.

End CdMatchFacts.

(** ** The hourly sweep *)

Section UserStateFacts.
Import UserState.

Lemma entriesOf_purge (u v : Z) (m : maps) :
  entriesOf u (purge v m) = if decide (v = u) then noEntries else entriesOf u m.
Proof.
  unfold entriesOf, purge, noEntries. cbn.
  destruct (decide (v = u)) as [->|Hne].
  - now rewrite !lookup_delete_eq.
  - now rewrite !lookup_delete_ne by exact Hne.
Qed.

Lemma entriesOf_sweep (now : Z) (entries : list (Z * Z)) (u : Z) (m : maps) :
  entriesOf u (fold_left (sweepStep now) entries m)
  = if staleIn now u entries then noEntries else entriesOf u m.
Proof.
  revert m. induction entries as [|[v t] entries IH]; intros m; [reflexivity|].
  cbn [fold_left]. rewrite IH. unfold staleIn. cbn [existsb fst snd].
  fold (staleIn now u entries).
  destruct (staleIn now u entries); [now rewrite orb_true_r|].
  rewrite orb_false_r. unfold sweepStep. cbn [fst snd].
  destruct (MAX_INACTIVE_TIME <? now - t)%Z.
  - rewrite entriesOf_purge, andb_true_r.
    destruct (decide (v = u)) as [->|Hne].
    + now rewrite bool_decide_eq_true_2.
    + now rewrite bool_decide_eq_false_2.
  - now rewrite andb_false_r.
Qed.

Lemma staleIn_map (now : Z) (u : Z) (activity : gmap Z Z) :
  staleIn now u (map_to_list activity) = true
  <-> exists t, activity !! u = Some t /\ (MAX_INACTIVE_TIME < now - t)%Z.
Proof.
  unfold staleIn. rewrite existsb_exists. split.
  - intros [[v t] [Hin H]]. cbn [fst snd] in H.
    apply andb_true_iff in H as [Hv Ht].
    apply bool_decide_eq_true_1 in Hv. subst v. apply Z.ltb_lt in Ht.
    exists t. split; [|exact Ht].
    apply elem_of_map_to_list. now apply list_elem_of_In.
  - intros [t [Hu Ht]]. exists (u, t). split.
    + apply list_elem_of_In. now apply elem_of_map_to_list.
    + cbn [fst snd]. rewrite bool_decide_eq_true_2 by reflexivity.
      now apply Z.ltb_lt.
Qed.

Lemma cleared_grows (now : Z) (entries : list (Z * Z)) (m : maps) (timer : nat) :
  In timer (clearedTimers m) ->
  In timer (clearedTimers (fold_left (sweepStep now) entries m)).
Proof.
  revert m. induction entries as [|[v t] entries IH]; intros m H; [exact H|].
  cbn [fold_left]. apply IH. unfold sweepStep. cbn [fst snd].
  destruct (MAX_INACTIVE_TIME <? now - t)%Z; [|exact H].
  unfold purge. cbn [clearedTimers].
  destruct (userAutoRefresh m !! v); [|exact H].
  apply in_or_app. now left.
Qed.

Lemma cleared_timer (now : Z) (entries : list (Z * Z)) (m : maps)
    (u : Z) (timer : nat) :
  userAutoRefresh m !! u = Some timer ->
  staleIn now u entries = true ->
  In timer (clearedTimers (fold_left (sweepStep now) entries m)).
Proof.
  revert m. induction entries as [|[v t] entries IH]; intros m Ht Hs;
    [discriminate|].
  cbn [fold_left]. unfold staleIn in Hs. cbn [existsb fst snd] in Hs.
  fold (staleIn now u entries) in Hs.
  unfold sweepStep at 2. cbn [fst snd].
  destruct (MAX_INACTIVE_TIME <? now - t)%Z eqn:Est.
  - destruct (decide (v = u)) as [->|Hne].
    + apply cleared_grows. unfold purge. cbn [clearedTimers].
      rewrite Ht. apply in_or_app. right. now left.
    + apply IH.
      * unfold purge. cbn [userAutoRefresh].
        now rewrite lookup_delete_ne by exact Hne.
      * rewrite bool_decide_eq_false_2 in Hs by exact Hne. exact Hs.
  - rewrite andb_false_r in Hs. now apply IH.
Qed.

(** X22. The hourly sweep at time [now] removes every entry, in all seven
    maps, of each user whose recorded last activity lies more than an hour
    back, and stops that user's refresh timer; a user with a more recent
    activity record, or with none at all, keeps every entry. *)
Theorem cleanupStaleUsers_spec (now : Z) (m : maps) (userId : Z) :
  ((exists t, userLastActivity m !! userId = Some t
              /\ (MAX_INACTIVE_TIME < now - t)%Z) ->
   entriesOf userId (cleanupStaleUsers now m) = noEntries
   /\ getActiveSessionName userId (cleanupStaleUsers now m) = lit "default"
   /\ isInTmuxMode userId (cleanupStaleUsers now m) = false
   /\ forall timer, userAutoRefresh m !! userId = Some timer ->
                    In timer (clearedTimers (cleanupStaleUsers now m)))
  /\ (~ (exists t, userLastActivity m !! userId = Some t
                   /\ (MAX_INACTIVE_TIME < now - t)%Z) ->
      entriesOf userId (cleanupStaleUsers now m) = entriesOf userId m).
Proof.
  unfold cleanupStaleUsers. split.
  - intros Hstale. apply staleIn_map in Hstale.
    assert (He : entriesOf userId
                   (fold_left (sweepStep now)
                      (map_to_list (userLastActivity m)) m) = noEntries).
    { now rewrite entriesOf_sweep, Hstale. }
    split; [exact He|].
    unfold entriesOf, noEntries in He.
    injection He as H1 H2 H3 H4 H5 H6 H7.
    unfold getActiveSessionName, isInTmuxMode. rewrite H1, H2.
    repeat split. intros timer Ht. now apply (cleared_timer now _ m userId).
  - intros Hfresh. rewrite entriesOf_sweep.
    destruct (staleIn now userId (map_to_list (userLastActivity m))) eqn:E;
      [|reflexivity].
    exfalso. apply Hfresh. now apply staleIn_map.
Qed.

Lemma cleanupStaleUsers_spec_witness :
  entriesOf 7
    (cleanupStaleUsers 4000000
       {| userActiveSessions := {[ 7%Z := lit "build" ]};
          userTmuxMode := ∅; userLastScreen := ∅; userAutoRefresh := ∅;
          userLastCommand := ∅; userLastActivity := {[ 7%Z := 1000%Z ]};
          pendingConfirmations := ∅; clearedTimers := [] |})
  = noEntries.
Proof.
  refine (proj1 (proj1 (cleanupStaleUsers_spec 4000000 _ 7) _)).
  exists 1000%Z. split; [apply lookup_singleton_eq | reflexivity].
Defined.

End UserStateFacts.
